(** * A shallow embedding of the simulation core of [mario/src/App.js]

    The game keeps its whole world in JavaScript closures: one [player]
    object, the arrays [coins] and [enemies], and the two counters
    [scoreRef.current] and [livesRef.current].  The embedding below threads
    that world explicitly through every function that mutates it.

    Conventions.
    - JavaScript numbers that hold coordinates, sizes, velocities and the
      frame time are modelled as exact rationals ([Q]); rounding, NaN and the
      infinities of IEEE doubles are outside the model (the one infinity the
      program can compute, [Math.max()] of no arguments, is modelled by
      [None] in [cols]).  Equality of such numbers is [Qeq], written [==].
    - Tile indices and the two counters are integers ([Z]).
    - The level is a list of ASCII strings; [String.length] and [String.get]
      stand for [.length] and indexing. *)

From Stdlib Require Import ZArith QArith Qround Bool List String Ascii Lia Lqa.
Import ListNotations.

Local Open Scope Z_scope.
Local Open Scope Q_scope.

(** ** Numbers *)

Definition Qltb (a b : Q) : bool := negb (Qle_bool b a).

(** [Math.floor(v / TILE)] *)
Definition floorDiv (v t : Q) : Z := Qfloor (v / t).

(** ** Game constants (lines 43-62) *)

Definition VIEW_W : Q := 960.
Definition VIEW_H : Q := 540.
Definition TILE : Q := 48.
Definition GRAV : Q := 2400.
Definition MOVE_SPEED : Q := 280.
Definition JUMP_SPEED : Q := 720.

(** ** The data model *)

Module Ent.
(** The [player] object (lines 87-97); it is the only object ever passed
    to [moveEntityX] and [moveEntityY]. *)
Record t : Type := mk
  { x : Q; y : Q; w : Q; h : Q; vx : Q; vy : Q;
    onGround : bool; facing : Q; alive : bool }.

Definition set_x (v : Q) (e : t) : t :=
  mk v (y e) (w e) (h e) (vx e) (vy e) (onGround e) (facing e) (alive e).
Definition set_y (v : Q) (e : t) : t :=
  mk (x e) v (w e) (h e) (vx e) (vy e) (onGround e) (facing e) (alive e).
Definition set_vx (v : Q) (e : t) : t :=
  mk (x e) (y e) (w e) (h e) v (vy e) (onGround e) (facing e) (alive e).
Definition set_vy (v : Q) (e : t) : t :=
  mk (x e) (y e) (w e) (h e) (vx e) v (onGround e) (facing e) (alive e).
Definition set_onGround (b : bool) (e : t) : t :=
  mk (x e) (y e) (w e) (h e) (vx e) (vy e) b (facing e) (alive e).
Definition set_facing (v : Q) (e : t) : t :=
  mk (x e) (y e) (w e) (h e) (vx e) (vy e) (onGround e) v (alive e).
Definition set_alive (b : bool) (e : t) : t :=
  mk (x e) (y e) (w e) (h e) (vx e) (vy e) (onGround e) (facing e) b.
End Ent.

Module Tile.
(** [{ x, y, c, r }] pushed for every '#' (line 105). *)
Record t : Type := mk { x : Q; y : Q; c : nat; r : nat }.
End Tile.

Module Coin.
(** [{ x, y, r, c, picked }] pushed for every 'C' (line 106). *)
Record t : Type := mk { x : Q; y : Q; r : nat; c : nat; picked : bool }.

Definition set_picked (b : bool) (k : t) : t := mk (x k) (y k) (r k) (c k) b.
End Coin.

Module Enemy.
(** [{ x, y, w, h, speed, dir, alive }] pushed for every 'E' (line 107). *)
Record t : Type := mk
  { x : Q; y : Q; w : Q; h : Q; speed : Q; dir : Q; alive : bool }.

Definition set_x (v : Q) (e : t) : t :=
  mk v (y e) (w e) (h e) (speed e) (dir e) (alive e).
Definition set_dir (v : Q) (e : t) : t :=
  mk (x e) (y e) (w e) (h e) (speed e) v (alive e).
Definition set_alive (b : bool) (e : t) : t :=
  mk (x e) (y e) (w e) (h e) (speed e) (dir e) b.
End Enemy.

(** The object literals [{ x, y, w, h }] handed to [rectsIntersect]. *)
Record Rect : Type := mkRect { rect_x : Q; rect_y : Q; rect_w : Q; rect_h : Q }.

(** The input record [keys] (line 119). *)
Record Keys : Type := mkKeys { left : bool; right : bool; up : bool }.

(** The mutable world the closures of the effect share. *)
Record Game : Type := mkGame
  { tiles : list Tile.t;
    coins : list Coin.t;
    enemies : list Enemy.t;
    player : Ent.t;
    scoreRef : Z;
    livesRef : Z }.

Definition set_player (p : Ent.t) (g : Game) : Game :=
  mkGame (tiles g) (coins g) (enemies g) p (scoreRef g) (livesRef g).
Definition set_coins (cs : list Coin.t) (g : Game) : Game :=
  mkGame (tiles g) cs (enemies g) (player g) (scoreRef g) (livesRef g).
Definition set_enemies (es : list Enemy.t) (g : Game) : Game :=
  mkGame (tiles g) (coins g) es (player g) (scoreRef g) (livesRef g).
Definition set_scoreRef (s : Z) (g : Game) : Game :=
  mkGame (tiles g) (coins g) (enemies g) (player g) s (livesRef g).
Definition set_livesRef (l : Z) (g : Game) : Game :=
  mkGame (tiles g) (coins g) (enemies g) (player g) (scoreRef g) l.

(** ** The tilemap (lines 79-82 and 139-146) *)

Section Tilemap.

Variable level : list string.

(** [level.length] *)
Definition rows : Z := Z.of_nat (List.length level).

(** [Math.max(...level.map((r) => r.length))]; [None] is the [-Infinity]
    that [Math.max] returns when the level has no row. *)
Definition cols : option Z :=
  match level with
  | [] => None
  | r0 :: rest =>
      Some (fold_left Z.max
              (map (fun r => Z.of_nat (String.length r)) rest)
              (Z.of_nat (String.length r0)))
  end.

(** [col >= cols] *)
Definition geCols (col : Z) : bool :=
  match cols with
  | None => true
  | Some n => (n <=? col)%Z
  end.

(** [level[row][col] || " "] for a row index inside the level. *)
Definition charAt (col row : Z) : ascii :=
  match String.get (Z.to_nat col) (nth (Z.to_nat row) level EmptyString) with
  | Some ch => ch
  | None => " "%char
  end.

(** [getTileAt]; [None] is the [null] of the source. *)
Definition getTileAt (col row : Z) : option ascii :=
  if (row <? 0)%Z || (rows <=? row)%Z || (col <? 0)%Z || geCols col
  then None
  else Some (charAt col row).

Definition isSolidAtColRow (col row : Z) : bool :=
  match getTileAt col row with
  | Some ch => Ascii.eqb ch "#"%char
  | None => false
  end.

(** [cols * TILE] and [rows * TILE] *)
Definition worldW : option Q := option_map (fun n => inject_Z n * TILE) cols.
Definition worldH : Q := inject_Z rows * TILE.

End Tilemap.

(** ** Boxes (lines 135-137) *)

Definition rectsIntersect (a b : Rect) : bool :=
  negb (Qle_bool (rect_x a + rect_w a) (rect_x b)
        || Qle_bool (rect_x b + rect_w b) (rect_x a)
        || Qle_bool (rect_y a + rect_h a) (rect_y b)
        || Qle_bool (rect_y b + rect_h b) (rect_y a)).

(** The box of an entity and the box of one tile of the grid. *)
Definition entBox (e : Ent.t) : Rect :=
  mkRect (Ent.x e) (Ent.y e) (Ent.w e) (Ent.h e).
Definition cellBox (c r : Z) : Rect :=
  mkRect (inject_Z c * TILE) (inject_Z r * TILE) TILE TILE.

(** ** The collision resolver (lines 148-192) *)

Section Resolver.

Variable level : list string.

(** The inner loop [for (let c = left; c <= right; c++)], cut at the first
    solid cell; [n] is the number of iterations left. *)
Fixpoint scanCols (n : nat) (c r : Z) : option (Z * Z) :=
  match n with
  | O => None
  | S n' =>
      if isSolidAtColRow level c r then Some (c, r)
      else scanCols n' (c + 1)%Z r
  end.

(** The outer loop [for (let r = top; r <= bottom; r++)]. *)
Fixpoint scanRows (m : nat) (left right r : Z) : option (Z * Z) :=
  match m with
  | O => None
  | S m' =>
      match scanCols (Z.to_nat (right - left + 1)) left r with
      | Some cr => Some cr
      | None => scanRows m' left right (r + 1)%Z
      end
  end.

(** The cell at which the nested loops [return], if they do. *)
Definition firstSolid (ent : Ent.t) : option (Z * Z) :=
  let left := floorDiv (Ent.x ent) TILE in
  let right := floorDiv (Ent.x ent + Ent.w ent - 1) TILE in
  let top := floorDiv (Ent.y ent) TILE in
  let bottom := floorDiv (Ent.y ent + Ent.h ent - 1) TILE in
  scanRows (Z.to_nat (bottom - top + 1)) left right top.

Definition moveEntityX (ent : Ent.t) (dx : Q) : Ent.t :=
  let ent := Ent.set_x (Ent.x ent + dx) ent in
  match firstSolid ent with
  | Some (c, r) =>
      let ent :=
        if Qltb 0 dx then Ent.set_x (inject_Z c * TILE - Ent.w ent) ent
        else if Qltb dx 0 then Ent.set_x (inject_Z c * TILE + TILE) ent
        else ent in
      if negb (Qeq_bool (Ent.vx ent) 0) then Ent.set_vx 0 ent else ent
  | None => ent
  end.

Definition moveEntityY (ent : Ent.t) (dy : Q) : Ent.t :=
  let ent := Ent.set_y (Ent.y ent + dy) ent in
  match firstSolid ent with
  | Some (c, r) =>
      if Qltb 0 dy then
        Ent.set_onGround true
          (Ent.set_vy 0 (Ent.set_y (inject_Z r * TILE - Ent.h ent) ent))
      else if Qltb dy 0 then
        Ent.set_vy 0 (Ent.set_y (inject_Z r * TILE + TILE) ent)
      else ent
  | None => Ent.set_onGround false ent
  end.

End Resolver.

(** ** Restart (lines 194-209)

    [setScoreState] and [setLivesState] only copy the two counters into the
    React state that the page displays; they are not part of the world. *)

Definition restartLevel (g : Game) : Game :=
  let g := set_scoreRef 0%Z g in
  let g := set_livesRef (Z.max 0 (livesRef g)) g in
  let g := set_player (Ent.set_x (TILE * 2) (player g)) g in
  let g := set_player (Ent.set_y 0 (player g)) g in
  let g := set_player (Ent.set_vx 0 (player g)) g in
  let g := set_player (Ent.set_vy 0 (player g)) g in
  let g := set_coins (map (Coin.set_picked false) (coins g)) g in
  set_enemies (map (Enemy.set_alive true) (enemies g)) g.

(** ** The simulation step (lines 211-298) *)

(** [l[i] = v] for an index inside the list. *)
Fixpoint setNth {A : Type} (i : nat) (v : A) (l : list A) : list A :=
  match l, i with
  | [], _ => []
  | _ :: l', O => v :: l'
  | a :: l', S i' => a :: setNth i' v l'
  end.

Definition setEnemy (i : nat) (en : Enemy.t) (g : Game) : Game :=
  set_enemies (setNth i en (enemies g)) g.

(** The coin loop (lines 234-244); the player does not change in it. *)
Definition coinBox (coin : Coin.t) : Rect :=
  mkRect (Coin.x coin - 10) (Coin.y coin - 10) 20 20.

Fixpoint collectCoins (p : Ent.t) (cs : list Coin.t) (score : Z)
  : list Coin.t * Z :=
  match cs with
  | [] => ([], score)
  | coin :: rest =>
      if negb (Coin.picked coin) && rectsIntersect (coinBox coin) (entBox p)
      then let (rest', score') := collectCoins p rest (score + 1)%Z in
           (Coin.set_picked true coin :: rest', score')
      else let (rest', score') := collectCoins p rest score in
           (coin :: rest', score')
  end.

(** The statements that take a life (lines 271-281, and again, the same
    statements, at lines 288-296). *)
Definition respawn (p : Ent.t) : Ent.t :=
  Ent.set_vy 0 (Ent.set_vx 0 (Ent.set_y 0 (Ent.set_x (TILE * 2) p))).

Definition hurt (g : Game) : Game :=
  let g := set_livesRef (livesRef g - 1)%Z g in
  if (livesRef g <=? 0)%Z
  then set_player (Ent.set_alive false (player g)) g
  else set_player (respawn (player g)) g.

(** The test of line 264. *)
Definition stompTest (p : Ent.t) (en : Enemy.t) : bool :=
  let playerBottom := Ent.y p + Ent.h p in
  Qltb 0 (Ent.vy p)
  && Qltb (playerBottom - (Enemy.y en + Enemy.h en / 2)) 16.

(** The statements of lines 265-268, for the enemy at index [i]. *)
Definition stomp (i : nat) (en : Enemy.t) (g : Game) : Game :=
  let g := setEnemy i (Enemy.set_alive false en) g in
  let g := set_player (Ent.set_vy (- JUMP_SPEED * (1 # 2)) (player g)) g in
  set_scoreRef (scoreRef g + 2)%Z g.

Definition enemyBox (en : Enemy.t) : Rect :=
  mkRect (Enemy.x en) (Enemy.y en) (Enemy.w en) (Enemy.h en).

Section Step.

Variable level : list string.

(** Lines 251-257: the patrol of one enemy. *)
Definition patrol (dt : Q) (en : Enemy.t) : Enemy.t :=
  let en := Enemy.set_x (Enemy.x en + Enemy.dir en * Enemy.speed en * dt) en in
  let aheadCol :=
    floorDiv (Enemy.x en + (if Qltb 0 (Enemy.dir en) then Enemy.w en else 0))
             TILE in
  let footRow := floorDiv (Enemy.y en + Enemy.h en + 1) TILE in
  if negb (isSolidAtColRow level aheadCol footRow)
  then Enemy.set_dir (Enemy.dir en * -1) en
  else en.

(** Lines 259-283: what happens once the enemy at index [i] has moved. *)
Definition touch (i : nat) (en : Enemy.t) (g : Game) : Game :=
  if rectsIntersect (enemyBox en) (entBox (player g)) then
    if stompTest (player g) en then stomp i en g else hurt g
  else g.

(** The body of [for (const en of enemies)] for the enemy at index [i]. *)
Definition enemyStep (dt : Q) (g : Game) (i : nat) : Game :=
  match nth_error (enemies g) i with
  | None => g
  | Some en =>
      if negb (Enemy.alive en) then g
      else
        let en := patrol dt en in
        touch i en (setEnemy i en g)
  end.

Definition enemiesLoop (dt : Q) (g : Game) : Game :=
  fold_left (enemyStep dt) (seq 0 (List.length (enemies g))) g.

(** Lines 286-297. *)
Definition voidFall (g : Game) : Game :=
  if Qltb (worldH level + 500) (Ent.y (player g)) then hurt g else g.

(** Lines 213-224: input and jump. *)
Definition applyInput (keys : Keys) (p : Ent.t) : Ent.t :=
  let move := 0 in
  let move := if left keys then move - 1 else move in
  let move := if right keys then move + 1 else move in
  let p := Ent.set_vx (move * MOVE_SPEED) p in
  let p :=
    if negb (Qeq_bool move 0)
    then Ent.set_facing (if Qltb 0 move then 1 else -1) p
    else p in
  if up keys && Ent.onGround p
  then Ent.set_onGround false (Ent.set_vy (- JUMP_SPEED) p)
  else p.

(** Lines 213-231: input, jump, gravity and the two resolver calls. *)
Definition movePlayer (keys : Keys) (dt : Q) (p : Ent.t) : Ent.t :=
  let p := applyInput keys p in
  let p := Ent.set_vy (Ent.vy p + GRAV * dt) p in
  let p := moveEntityX level p (Ent.vx p * dt) in
  moveEntityY level p (Ent.vy p * dt).

(** Lines 233-244: the coin loop on the world. *)
Definition coinPhase (g : Game) : Game :=
  let (cs, score) := collectCoins (player g) (coins g) (scoreRef g) in
  set_scoreRef score (set_coins cs g).

Definition update (keys : Keys) (dt : Q) (g : Game) : Game :=
  if negb (Ent.alive (player g)) then g
  else
    let g := set_player (movePlayer keys dt (player g)) g in
    let g := coinPhase g in
    let g := enemiesLoop dt g in
    voidFall g.

End Step.

(** A run of frames: one step per frame, each with the keys held during it
    and its frame time. *)
Definition run (level : list string) (frames : list (Keys * Q)) (g : Game)
  : Game :=
  fold_left (fun g f => update level (fst f) (snd f) g) frames g.

(** ** Construction of the world (lines 84-116) *)

Definition set_tiles (ts : list Tile.t) (g : Game) : Game :=
  mkGame ts (coins g) (enemies g) (player g) (scoreRef g) (livesRef g).

(** The object literal of lines 87-97. *)
Definition initialPlayer : Ent.t :=
  Ent.mk (TILE * 2) 0 36 42 0 0 false 1 true.

(** The body of the inner parsing loop, for the cell at row [r], column [c]. *)
Definition parseCell (row : string) (r c : nat) (g : Game) : Game :=
  let ch := match String.get c row with Some ch => ch | None => " "%char end in
  let x := inject_Z (Z.of_nat c) * TILE in
  let y := inject_Z (Z.of_nat r) * TILE in
  let g :=
    if Ascii.eqb ch "#" then set_tiles (tiles g ++ [Tile.mk x y c r]) g
    else g in
  let g :=
    if Ascii.eqb ch "C"
    then set_coins (coins g ++ [Coin.mk (x + TILE / 2) (y + TILE / 2) r c false]) g
    else g in
  let g :=
    if Ascii.eqb ch "E"
    then set_enemies (enemies g ++ [Enemy.mk x (y + TILE - 40) 36 36 60 1 true]) g
    else g in
  if Ascii.eqb ch "P"
  then
    let g := set_player (Ent.set_x (x + 6) (player g)) g in
    set_player (Ent.set_y (y - Ent.h (player g)) (player g)) g
  else g.

(** The number of iterations of [for (let c = 0; c < cols; c++)]. *)
Definition colCount (level : list string) : nat :=
  match cols level with
  | Some n => Z.to_nat n
  | None => O
  end.

Definition parseRow (level : list string) (g : Game) (r : nat) : Game :=
  fold_left (fun g c => parseCell (nth r level EmptyString) r c g)
            (seq 0 (colCount level)) g.

Definition parseLevel (level : list string) (g : Game) : Game :=
  fold_left (parseRow level) (seq 0 (List.length level)) g.

(** The world when the component mounts: [useRef(0)], [useRef(3)] and the
    result of parsing. *)
Definition mount (level : list string) : Game :=
  parseLevel level (mkGame [] [] [] initialPlayer 0%Z 3%Z).

(** What a construction can end in.  The effect body has no [throw] and no
    statement that can raise on a list of strings, so it always ends in a
    built world. *)
Inductive Outcome : Type :=
| ConfigError
| Built (g : Game).

Definition construct (level : list string) : Outcome := Built (mount level).

(** Whether some row of the level holds the marker [ch]. *)
Fixpoint hasChar (ch : ascii) (s : string) : bool :=
  match s with
  | EmptyString => false
  | String a s' => Ascii.eqb a ch || hasChar ch s'
  end.

Definition hasMarker (ch : ascii) (level : list string) : bool :=
  existsb (hasChar ch) level.

(** The level shipped with the program (lines 65-76). *)
Definition level0 : list string :=
  [ "                                                                                ";
    "                                                                                ";
    "                                                                                ";
    "                                                                                ";
    "       C                                                                        G";
    "   #######                     E                      C               ######    ";
    "                                                                                ";
    " P                                                                              ";
    "############################    ############################  ###################";
    "############################    ############################  ###################" ]%string.

(** ** Vocabulary of the properties *)

(** The cells the scan visits: the columns and rows under the box. *)
Definition inScan (ent : Ent.t) (c r : Z) : Prop :=
  (floorDiv (Ent.x ent) TILE <= c <= floorDiv (Ent.x ent + Ent.w ent - 1) TILE)%Z
  /\ (floorDiv (Ent.y ent) TILE <= r <= floorDiv (Ent.y ent + Ent.h ent - 1) TILE)%Z.

(** The coins one pass of the loop picks up. *)
Definition fresh (p : Ent.t) (coin : Coin.t) : bool :=
  negb (Coin.picked coin) && rectsIntersect (coinBox coin) (entBox p).

(** ** Scenarios

    Frames of 0.04 s, the ceiling [loop] puts on the frame time (line 406),
    with the keys held during each. *)

Definition idle : Keys := mkKeys false false false.
Definition holdRight : Keys := mkKeys false true false.
Definition pressUp : Keys := mkKeys false false true.
Definition slowFrame : Q := 1 # 25.

(** Walk right for [n] frames, then jump. *)
Definition walkAndJump (n : nat) : list (Keys * Q) :=
  repeat (holdRight, slowFrame) n ++ [(pressUp, slowFrame)].

(** On the shipped level: walk right off the first ledge and fall until the
    frame before the fall check fires. *)
Definition intoTheGap : list (Keys * Q) :=
  repeat (holdRight, slowFrame) 118 ++ repeat (idle, slowFrame) 14.

(** A level with two enemies side by side above the ground. *)
Definition twoEnemies : list string :=
  [ "    EE   "; "P        "; "#########" ]%string.

(** On [twoEnemies]: walk under the enemies and jump into the first one,
    twice, each time followed by the fall from the respawn point, then walk
    under them a third time. *)
Definition twoHits : list (Keys * Q) :=
  walkAndJump 18 ++ repeat (idle, slowFrame) 8
  ++ walkAndJump 10 ++ repeat (idle, slowFrame) 8
  ++ repeat (holdRight, slowFrame) 10.

(** The world on [twoEnemies] after [twoHits], the step in which the player
    then jumps, and that step cut after the first [n] enemies of its loop. *)
Definition lastLife : Game := run twoEnemies twoHits (mount twoEnemies).

Definition lastJump : Game := update twoEnemies pressUp slowFrame lastLife.

Definition lastJumpEnemy (n : nat) : Game :=
  fold_left (enemyStep twoEnemies slowFrame) (seq 0 n)
    (coinPhase
       (set_player (movePlayer twoEnemies pressUp slowFrame (player lastLife))
                   lastLife)).

(** ** The camera (lines 304-306) *)

(** [Math.max] and [Math.min] of two numbers. *)
Definition Math_max (a b : Q) : Q := if Qle_bool a b then b else a.
Definition Math_min (a b : Q) : Q := if Qle_bool a b then a else b.

(** [camX]; with a level that has no row [worldW] is [-Infinity], the
    minimum is [-Infinity] and the maximum is 0. *)
Definition camX (level : list string) (p : Ent.t) : Q :=
  match worldW level with
  | Some W => Math_max 0 (Math_min (Ent.x p - VIEW_W / 3) (W - VIEW_W))
  | None => 0
  end.

(** ** More vocabulary *)

(** The columns (or rows) [k] whose tile the scan visits for an edge at [v]
    and a size [s]: [floor(v / TILE) <= k <= floor((v + s - 1) / TILE)]. *)
Definition span (v s : Q) (k : Z) : Prop :=
  v < inject_Z k * TILE + TILE /\ inject_Z k * TILE <= v + s - 1.

(** The cells of the level in the order the two parsing loops visit them:
    row by row, and in each row the columns [0 .. cols - 1]. *)
Definition cells (level : list string) : list (nat * nat) :=
  flat_map (fun r => map (fun c => (r, c)) (seq 0 (colCount level)))
           (seq 0 (List.length level)).

(** The character of a cell, a blank where its row is too short. *)
Definition charOf (level : list string) (rc : nat * nat) : ascii :=
  match String.get (snd rc) (nth (fst rc) level EmptyString) with
  | Some ch => ch
  | None => " "%char
  end.

(** The cells that hold the marker [ch], in that order. *)
Definition marks (level : list string) (ch : ascii) : list (nat * nat) :=
  filter (fun rc => Ascii.eqb (charOf level rc) ch) (cells level).

(** The top left corner of a cell. *)
Definition cellX (rc : nat * nat) : Q := inject_Z (Z.of_nat (snd rc)) * TILE.
Definition cellY (rc : nat * nat) : Q := inject_Z (Z.of_nat (fst rc)) * TILE.

(** The objects of lines 105-107 and the two assignments of lines 109-110,
    for the cell [rc]. *)
Definition tileOf (rc : nat * nat) : Tile.t :=
  Tile.mk (cellX rc) (cellY rc) (snd rc) (fst rc).
Definition coinOf (rc : nat * nat) : Coin.t :=
  Coin.mk (cellX rc + TILE / 2) (cellY rc + TILE / 2) (fst rc) (snd rc) false.
Definition enemyOf (rc : nat * nat) : Enemy.t :=
  Enemy.mk (cellX rc) (cellY rc + TILE - 40) 36 36 60 1 true.
Definition placeAt (rc : nat * nat) (p : Ent.t) : Ent.t :=
  Ent.set_y (cellY rc - Ent.h p) (Ent.set_x (cellX rc + 6) p).

(** The body of the inner parsing loop at the cell [rc]. *)
Definition parseAt (level : list string) (g : Game) (rc : nat * nat) : Game :=
  parseCell (nth (fst rc) level EmptyString) (fst rc) (snd rc) g.

(** Where the player of a world is put that starts from [p] and meets the
    P markers [ps] in turn. *)
Definition placeLast (ps : list (nat * nat)) (p : Ent.t) : Ent.t :=
  match rev ps with
  | [] => p
  | rc :: _ => placeAt rc p
  end.

(** ** The effect runs again (lines 32-33, 38 and 435)

    The whole world lives in the body of one [useEffect] whose dependency
    list is [[isPaused]].  Each time the pause flag changes the effect is
    cleaned up and its body runs again: the level is parsed into a new
    player, new coins and new enemies.  The two counters are [useRef] cells
    of the component and are not touched by that. *)
Definition remount (level : list string) (g : Game) : Game :=
  parseLevel level (mkGame [] [] [] initialPlayer (scoreRef g) (livesRef g)).

(** ** How a world may change

    What one step, and so any run of steps, keeps of each object. *)

Definition coinRel (k k' : Coin.t) : Prop :=
  Coin.x k' = Coin.x k /\ Coin.y k' = Coin.y k
  /\ Coin.r k' = Coin.r k /\ Coin.c k' = Coin.c k
  /\ (Coin.picked k = true -> Coin.picked k' = true).

Definition enemyRel (e e' : Enemy.t) : Prop :=
  Enemy.y e' = Enemy.y e /\ Enemy.w e' = Enemy.w e
  /\ Enemy.h e' = Enemy.h e /\ Enemy.speed e' = Enemy.speed e
  /\ (Enemy.dir e' == Enemy.dir e \/ Enemy.dir e' == - Enemy.dir e)
  /\ (Enemy.alive e = false -> e' = e).

Definition playerRel (p p' : Ent.t) : Prop :=
  Ent.w p' = Ent.w p /\ Ent.h p' = Ent.h p
  /\ (Ent.alive p' = true -> Ent.alive p = true).

Definition keeps (g g' : Game) : Prop :=
  tiles g' = tiles g
  /\ Forall2 coinRel (coins g) (coins g')
  /\ Forall2 enemyRel (enemies g) (enemies g')
  /\ playerRel (player g) (player g')
  /\ (scoreRef g <= scoreRef g')%Z
  /\ (livesRef g' <= livesRef g)%Z.

(** A world with at most one enemy, that enemy not lower than the line of
    the fall check, and the lives in step with the player's [alive] flag. *)
Definition safeWorld (level : list string) (g : Game) : Prop :=
  (List.length (enemies g) <= 1)%nat
  /\ Forall (fun en => Enemy.y en + Enemy.h en <= worldH level + 500) (enemies g)
  /\ (Ent.alive (player g) = true -> (1 <= livesRef g)%Z)
  /\ (Ent.alive (player g) = false -> livesRef g = 0%Z).

(** Whether the enemy at index [i] is alive, and how many enemies are alive
    and coins not picked. *)
Definition aliveIn (es : list Enemy.t) (i : nat) : bool :=
  match nth_error es i with
  | Some en => Enemy.alive en
  | None => false
  end.

Definition living (g : Game) : nat :=
  List.length (filter Enemy.alive (enemies g)).

Definition unpicked (g : Game) : nat :=
  List.length (filter (fun coin => negb (Coin.picked coin)) (coins g)).

(** ** The frame driver (lines 404-411)

    [loop] on the pair of [lastTimeRef.current] and the world; drawing and
    the request for the next frame change neither.  A stored time of 0 counts
    as not set. *)
Definition frameTime (lastTime t : Q) : Q :=
  let last := if Qeq_bool lastTime 0 then t else lastTime in
  Math_min (4 # 100) ((t - last) / 1000).

Definition loop (level : list string) (keys : Keys) (isPaused : bool) (t : Q)
  (st : Q * Game) : Q * Game :=
  let dt := frameTime (fst st) t in
  (t,
   if negb isPaused && Ent.alive (player (snd st))
   then update level keys dt (snd st)
   else snd st).

(** ** The keyboard (lines 119-130), on the pair of [keys] and [isPaused] *)

Definition onKeyDown (key : string) (st : Keys * bool) : Keys * bool :=
  let ks := fst st in
  let ks :=
    if (key =? "ArrowLeft")%string || (key =? "a")%string
    then mkKeys true (right ks) (up ks) else ks in
  let ks :=
    if (key =? "ArrowRight")%string || (key =? "d")%string
    then mkKeys (left ks) true (up ks) else ks in
  let ks :=
    if (key =? "ArrowUp")%string || (key =? "w")%string || (key =? " ")%string
    then mkKeys (left ks) (right ks) true else ks in
  (ks, if (key =? "p")%string then negb (snd st) else snd st).

Definition onKeyUp (key : string) (ks : Keys) : Keys :=
  let ks :=
    if (key =? "ArrowLeft")%string || (key =? "a")%string
    then mkKeys false (right ks) (up ks) else ks in
  let ks :=
    if (key =? "ArrowRight")%string || (key =? "d")%string
    then mkKeys (left ks) false (up ks) else ks in
  if (key =? "ArrowUp")%string || (key =? "w")%string || (key =? " ")%string
  then mkKeys (left ks) (right ks) false else ks.

(** * Properties *)

(** ** Comparisons and floors *)

Lemma Qltb_lt (a b : Q) : Qltb a b = true <-> a < b.
Proof.
  unfold Qltb. rewrite negb_true_iff, <- not_true_iff_false, Qle_bool_iff.
  split; [apply Qnot_le_lt | apply Qlt_not_le].
Qed.

Lemma Qltb_ge (a b : Q) : Qltb a b = false <-> b <= a.
Proof.
  unfold Qltb. rewrite negb_false_iff. apply Qle_bool_iff.
Qed.

Lemma Qle_bool_false (a b : Q) : Qle_bool a b = false <-> b < a.
Proof.
  rewrite <- not_true_iff_false, Qle_bool_iff.
  split; [apply Qnot_le_lt | apply Qlt_not_le].
Qed.

Lemma TILE_pos : 0 < TILE.
Proof. reflexivity. Qed.

(** A cell index at most [Math.floor(v / TILE)] starts at or before [v]. *)
Lemma floorDiv_ge (v : Q) (c : Z) :
  (c <= floorDiv v TILE)%Z -> inject_Z c * TILE <= v.
Proof.
  intros Hc. unfold floorDiv in Hc.
  assert (H1 : inject_Z c <= v / TILE).
  { apply Qle_trans with (inject_Z (Qfloor (v / TILE))).
    - rewrite <- Zle_Qle. exact Hc.
    - apply Qfloor_le. }
  apply (Qmult_le_compat_r _ _ TILE) in H1; [| discriminate].
  unfold Qdiv in H1. rewrite <- Qmult_assoc in H1.
  rewrite (Qmult_comm (/ TILE)), Qmult_inv_r, Qmult_1_r in H1;
    [exact H1 | discriminate].
Qed.

(** A cell index at least [Math.floor(v / TILE)] ends after [v]. *)
Lemma floorDiv_lt (v : Q) (c : Z) :
  (floorDiv v TILE <= c)%Z -> v < inject_Z c * TILE + TILE.
Proof.
  intros Hc. unfold floorDiv in Hc.
  assert (H1 : v / TILE < inject_Z (c + 1)).
  { apply Qlt_le_trans with (inject_Z (Qfloor (v / TILE) + 1)).
    - apply Qlt_floor.
    - rewrite <- Zle_Qle. lia. }
  apply (Qmult_lt_compat_r _ _ TILE) in H1; [| reflexivity].
  unfold Qdiv in H1. rewrite <- Qmult_assoc in H1.
  rewrite (Qmult_comm (/ TILE)), Qmult_inv_r, Qmult_1_r in H1;
    [| discriminate].
  rewrite inject_Z_plus in H1.
  setoid_replace ((inject_Z c + inject_Z 1) * TILE)
    with (inject_Z c * TILE + TILE) in H1 by ring.
  exact H1.
Qed.

(** ** The tilemap *)

Lemma geCols_true (level : list string) (col : Z) :
  geCols level col = true <->
  (forall n, cols level = Some n -> (n <= col)%Z).
Proof.
  unfold geCols. destruct (cols level) as [n|].
  - rewrite Z.leb_le. split.
    + intros H m Hm. injection Hm as <-. exact H.
    + intros H. apply H. reflexivity.
  - split; [discriminate | reflexivity].
Qed.

Lemma geCols_false (level : list string) (col : Z) :
  geCols level col = false <->
  (exists n, cols level = Some n /\ (col < n)%Z).
Proof.
  unfold geCols. destruct (cols level) as [n|].
  - rewrite Z.leb_gt. split.
    + intros H. exists n. split; [reflexivity | exact H].
    + intros [m [Hm H]]. injection Hm as <-. exact H.
  - split; [discriminate | intros [m [Hm _]]; discriminate].
Qed.

Lemma fold_max_ge (l : list Z) (a : Z) : (a <= fold_left Z.max l a)%Z.
Proof.
  revert a. induction l as [|b l IH]; intros a; simpl; [lia |].
  specialize (IH (Z.max a b)). lia.
Qed.

Lemma fold_max_in (l : list Z) (a b : Z) :
  In b l -> (b <= fold_left Z.max l a)%Z.
Proof.
  revert a. induction l as [|c l IH]; intros a; simpl; [tauto |].
  intros [-> | Hin].
  - pose proof (fold_max_ge l (Z.max a b)). lia.
  - apply IH. exact Hin.
Qed.

(** [cols] bounds the length of every row. *)
Lemma cols_bounds_rows (level : list string) (n : Z) (row : string) :
  cols level = Some n -> In row level ->
  (Z.of_nat (String.length row) <= n)%Z.
Proof.
  destruct level as [|r0 rest]; [discriminate |].
  simpl. intros Hn Hin. injection Hn as <-.
  destruct Hin as [-> | Hin].
  - apply fold_max_ge.
  - apply fold_max_in. apply in_map_iff. exists row. split; [reflexivity | exact Hin].
Qed.

Lemma get_beyond (s : string) (n : nat) :
  (String.length s <= n)%nat -> String.get n s = None.
Proof.
  revert n. induction s as [|a s IH]; intros n Hn; [reflexivity |].
  destruct n as [|n]; simpl in *; [lia |]. apply IH. lia.
Qed.

(** C8.  The solidity query [isSolidAtColRow] answers [false] for every cell
    outside the grid, on each of its four sides: a negative row, a row at or
    beyond [rows], a negative column, a column at or beyond [cols].  For a
    cell inside the grid it answers [true] exactly when the character of the
    level at that place is '#'; a row too short to have that column counts
    as empty there, so the answer is [false]. *)
Theorem isSolidAtColRow_bounds (level : list string) (col row : Z) :
  ((row < 0)%Z \/ (rows level <= row)%Z \/ (col < 0)%Z
   \/ (forall n, cols level = Some n -> (n <= col)%Z) ->
   isSolidAtColRow level col row = false)
  /\
  ((0 <= row < rows level)%Z ->
   (exists n, cols level = Some n /\ (0 <= col < n)%Z) ->
   (isSolidAtColRow level col row = true <->
    String.get (Z.to_nat col) (nth (Z.to_nat row) level EmptyString)
    = Some "#"%char)
   /\
   ((Z.of_nat (String.length (nth (Z.to_nat row) level EmptyString)) <= col)%Z ->
    isSolidAtColRow level col row = false)).
Proof.
  unfold isSolidAtColRow, getTileAt. split.
  - intros H.
    assert (E : (row <? 0)%Z || (rows level <=? row)%Z || (col <? 0)%Z
                || geCols level col = true).
    { rewrite !orb_true_iff, !Z.ltb_lt, Z.leb_le, geCols_true. tauto. }
    rewrite E. reflexivity.
  - intros Hrow [n [Hn Hcol]].
    assert (E : (row <? 0)%Z || (rows level <=? row)%Z || (col <? 0)%Z
                || geCols level col = false).
    { rewrite !orb_false_iff, !Z.ltb_ge, Z.leb_gt, geCols_false.
      repeat split; try lia. exists n. split; [exact Hn | lia]. }
    rewrite E. unfold charAt. split.
    + destruct (String.get _ _) as [ch|].
      * rewrite Ascii.eqb_eq. split; [intros -> | intros [= ->]]; reflexivity.
      * simpl. split; discriminate.
    + intros Hshort. rewrite get_beyond by lia. reflexivity.
Qed.

Lemma isSolidAtColRow_bounds_witness :
  isSolidAtColRow level0 (-1) 9 = false
  /\ isSolidAtColRow level0 3 (-1) = false
  /\ isSolidAtColRow level0 81 9 = false
  /\ isSolidAtColRow level0 3 10 = false
  /\ (isSolidAtColRow level0 3 5 = true <->
      String.get 3 (nth 5 level0 EmptyString) = Some "#"%char)
  /\ isSolidAtColRow level0 80 0 = false.
Proof.
  assert (Hc : exists n, cols level0 = Some n /\ (0 <= 3 < n)%Z).
  { exists 81%Z. split; [reflexivity | lia]. }
  assert (Hd : exists n, cols level0 = Some n /\ (0 <= 80 < n)%Z).
  { exists 81%Z. split; [reflexivity | lia]. }
  split; [| split; [| split; [| split; [| split]]]].
  - apply (proj1 (isSolidAtColRow_bounds level0 (-1) 9)).
    right; right; left; lia.
  - apply (proj1 (isSolidAtColRow_bounds level0 3 (-1))). left; lia.
  - apply (proj1 (isSolidAtColRow_bounds level0 81 9)).
    right; right; right. intros n [= <-]. lia.
  - apply (proj1 (isSolidAtColRow_bounds level0 3 10)).
    right; left. unfold rows; simpl; lia.
  - apply (proj1 (proj2 (isSolidAtColRow_bounds level0 3 5)
                    ltac:(unfold rows; simpl; lia) Hc)).
  - apply (proj2 (proj2 (isSolidAtColRow_bounds level0 80 0)
                    ltac:(unfold rows; simpl; lia) Hd)).
    simpl; lia.
Defined.

(** C10.  A call of [moveEntityX] writes only [x] and [vx] of the entity:
    [y], [w], [h], [vy], [onGround], [facing] and [alive] are the same
    before and after, for every level, entity and delta. *)
Theorem moveEntityX_frame (level : list string) (ent : Ent.t) (dx : Q) :
  let ent' := moveEntityX level ent dx in
  Ent.y ent' = Ent.y ent
  /\ Ent.w ent' = Ent.w ent
  /\ Ent.h ent' = Ent.h ent
  /\ Ent.vy ent' = Ent.vy ent
  /\ Ent.onGround ent' = Ent.onGround ent
  /\ Ent.facing ent' = Ent.facing ent
  /\ Ent.alive ent' = Ent.alive ent.
Proof.
  unfold moveEntityX.
  destruct (firstSolid level _) as [[c r]|]; simpl.
  - destruct (Qltb 0 dx); [| destruct (Qltb dx 0)];
      simpl; destruct (Qeq_bool (Ent.vx ent) 0); simpl; repeat split.
  - repeat split.
Qed.

(** ** The scan of the resolver *)

Section ScanFacts.

Variable level : list string.

Lemma scanCols_Some (n : nat) (c0 r c r' : Z) :
  scanCols level n c0 r = Some (c, r') ->
  r' = r /\ (c0 <= c < c0 + Z.of_nat n)%Z
  /\ isSolidAtColRow level c r = true.
Proof.
  revert c0. induction n as [|n IH]; intros c0; simpl; [discriminate |].
  destruct (isSolidAtColRow level c0 r) eqn:E.
  - intros [= <- <-]. repeat split; try lia. exact E.
  - intros H. destruct (IH _ H) as [-> [Hc Hs]]. repeat split; try lia. exact Hs.
Qed.

Lemma scanCols_None (n : nat) (c0 r : Z) :
  scanCols level n c0 r = None ->
  forall c, (c0 <= c < c0 + Z.of_nat n)%Z -> isSolidAtColRow level c r = false.
Proof.
  revert c0. induction n as [|n IH]; intros c0; simpl; [intros _ c; lia |].
  destruct (isSolidAtColRow level c0 r) eqn:E; [discriminate |].
  intros H c Hc. destruct (Z.eq_dec c c0) as [-> | Hne]; [exact E |].
  apply (IH _ H). lia.
Qed.

Lemma scanRows_Some (m : nat) (lo hi r0 c r : Z) :
  scanRows level m lo hi r0 = Some (c, r) ->
  (lo <= c <= hi)%Z /\ (r0 <= r < r0 + Z.of_nat m)%Z
  /\ isSolidAtColRow level c r = true.
Proof.
  revert r0. induction m as [|m IH]; intros r0; simpl; [discriminate |].
  destruct (scanCols level _ lo r0) as [[c1 r1]|] eqn:E.
  - intros [= <- <-]. apply scanCols_Some in E. destruct E as [-> [Hc Hs]].
    repeat split; try lia. exact Hs.
  - intros H. destruct (IH _ H) as [Hc [Hr Hs]]. repeat split; try lia. exact Hs.
Qed.

Lemma scanRows_None (m : nat) (lo hi r0 : Z) :
  scanRows level m lo hi r0 = None ->
  forall c r, (lo <= c <= hi)%Z -> (r0 <= r < r0 + Z.of_nat m)%Z ->
  isSolidAtColRow level c r = false.
Proof.
  revert r0. induction m as [|m IH]; intros r0; simpl; [intros _ c r _; lia |].
  destruct (scanCols level _ lo r0) as [[c1 r1]|] eqn:E; [discriminate |].
  intros H c r Hc Hr. destruct (Z.eq_dec r r0) as [-> | Hne].
  - apply (scanCols_None _ _ _ E). lia.
  - apply (IH _ H); lia.
Qed.

Lemma firstSolid_Some (ent : Ent.t) (c r : Z) :
  firstSolid level ent = Some (c, r) ->
  inScan ent c r /\ isSolidAtColRow level c r = true.
Proof.
  unfold firstSolid, inScan. intros H.
  apply scanRows_Some in H. destruct H as [Hc [Hr Hs]].
  repeat split; try lia. exact Hs.
Qed.

Lemma firstSolid_None (ent : Ent.t) :
  firstSolid level ent = None ->
  forall c r, inScan ent c r -> isSolidAtColRow level c r = false.
Proof.
  unfold firstSolid, inScan. intros H c r [Hc Hr].
  apply (scanRows_None _ _ _ _ H); lia.
Qed.

(** Every cell the scan visits meets the box of the entity. *)
Lemma inScan_intersects (ent : Ent.t) (c r : Z) :
  inScan ent c r -> rectsIntersect (entBox ent) (cellBox c r) = true.
Proof.
  intros [[Hc1 Hc2] [Hr1 Hr2]].
  apply floorDiv_lt in Hc1. apply floorDiv_ge in Hc2.
  apply floorDiv_lt in Hr1. apply floorDiv_ge in Hr2.
  unfold rectsIntersect, entBox, cellBox. simpl.
  rewrite negb_true_iff, !orb_false_iff, !Qle_bool_false.
  repeat split; lra.
Qed.

(** A box that meets no solid tile makes the scan come back empty. *)
Lemma firstSolid_free (ent : Ent.t) :
  (forall c r, isSolidAtColRow level c r = true ->
               rectsIntersect (entBox ent) (cellBox c r) = false) ->
  firstSolid level ent = None.
Proof.
  intros Hfree. destruct (firstSolid level ent) as [[c r]|] eqn:E; [| reflexivity].
  apply firstSolid_Some in E. destruct E as [Hin Hs].
  apply inScan_intersects in Hin. rewrite (Hfree _ _ Hs) in Hin. discriminate.
Qed.

End ScanFacts.

Lemma Qplus_0_r_eq (q : Q) : q + 0 = q.
Proof.
  destruct q as [n d]. unfold Qplus. simpl.
  rewrite Z.mul_1_r, Z.add_0_r, Pos.mul_1_r. reflexivity.
Qed.

Lemma set_y_same (ent : Ent.t) : Ent.set_y (Ent.y ent + 0) ent = ent.
Proof. rewrite Qplus_0_r_eq. destruct ent. reflexivity. Qed.

Lemma isSolid_true_inside (level : list string) (c r : Z) :
  isSolidAtColRow level c r = true ->
  (0 <= r < rows level)%Z /\ (0 <= c)%Z /\ geCols level c = false.
Proof.
  unfold isSolidAtColRow, getTileAt.
  destruct (_ || _ || _ || _) eqn:E; [discriminate |].
  rewrite !orb_false_iff, !Z.ltb_ge, Z.leb_gt in E. intros _. tauto.
Qed.

(** C6.  A call of [moveEntityY] with a zero delta leaves the position where
    it was and still runs the scan.  If no cell under the box is solid, and
    so in particular if the box meets no solid tile at all, [onGround] comes
    back [false], whatever it was before: one call is enough to notice that
    the entity has walked off a ledge.  If the scan does meet a solid cell,
    the zero delta selects neither branch and the entity is returned as it
    was. *)
Theorem moveEntityY_zero (level : list string) (ent : Ent.t) :
  let ent' := moveEntityY level ent 0 in
  Ent.x ent' = Ent.x ent
  /\ Ent.y ent' == Ent.y ent
  /\ ((forall c r, inScan ent c r -> isSolidAtColRow level c r = false) ->
      Ent.onGround ent' = false)
  /\ ((forall c r, isSolidAtColRow level c r = true ->
                   rectsIntersect (entBox ent) (cellBox c r) = false) ->
      Ent.onGround ent' = false)
  /\ ((exists c r, inScan ent c r /\ isSolidAtColRow level c r = true) ->
      ent' = ent).
Proof.
  unfold moveEntityY. rewrite set_y_same.
  change (Qltb 0 0) with false. cbv iota.
  destruct (firstSolid level ent) as [[c r]|] eqn:E.
  - apply firstSolid_Some in E. destruct E as [Hin Hs].
    split; [reflexivity |]. split; [reflexivity |]. split; [| split].
    + intros Hnone. rewrite (Hnone _ _ Hin) in Hs. discriminate.
    + intros Hfree. apply inScan_intersects in Hin.
      rewrite (Hfree _ _ Hs) in Hin. discriminate.
    + intros _. reflexivity.
  - split; [reflexivity |]. split; [reflexivity |]. split; [| split].
    + intros _. reflexivity.
    + intros _. reflexivity.
    + intros [c [r [Hin Hs]]].
      rewrite (firstSolid_None _ _ E _ _ Hin) in Hs. discriminate.
Qed.

(** One solid tile, and a grounded entity that has just stepped off it to
    the right. *)
Lemma moveEntityY_zero_witness :
  Ent.onGround (moveEntityY ["#"%string] (Ent.mk 48 6 36 42 0 0 true 1 true) 0)
  = false.
Proof.
  apply (proj1 (proj2 (proj2 (proj2
           (moveEntityY_zero ["#"%string] (Ent.mk 48 6 36 42 0 0 true 1 true)))))).
  intros c r Hs. apply isSolid_true_inside in Hs.
  destruct Hs as [Hr [Hc Hg]]. apply geCols_false in Hg.
  destruct Hg as [n [Hn Hlt]]. injection Hn as <-.
  unfold rows in Hr. simpl in Hr, Hlt.
  assert (c = 0%Z) as -> by lia. assert (r = 0%Z) as -> by lia.
  reflexivity.
Defined.

(** ** Resolution against the first solid cell *)

Lemma Qnot_eq_cases (d : Q) : ~ d == 0 -> 0 < d \/ d < 0.
Proof.
  intros Hd. destruct (Q_dec 0 d) as [[H | H] | H]; [left | right | ]; try exact H.
  exfalso. apply Hd. symmetry. exact H.
Qed.

Lemma Qltb_pos_neg (d : Q) : 0 < d -> Qltb 0 d = true.
Proof. apply Qltb_lt. Qed.

Lemma Qltb_neg_pos (d : Q) : d < 0 -> Qltb 0 d = false /\ Qltb d 0 = true.
Proof.
  intros H. split; [apply Qltb_ge; apply Qlt_le_weak; exact H | apply Qltb_lt; exact H].
Qed.

Lemma vx_cleared (e : Ent.t) :
  Ent.vx (if negb (Qeq_bool (Ent.vx e) 0) then Ent.set_vx 0 e else e) == 0.
Proof.
  destruct (Qeq_bool (Ent.vx e) 0) eqn:E; simpl.
  - apply Qeq_bool_iff. exact E.
  - reflexivity.
Qed.

Lemma vx_cleared_box (e : Ent.t) :
  entBox (if negb (Qeq_bool (Ent.vx e) 0) then Ent.set_vx 0 e else e) = entBox e.
Proof. destruct (Qeq_bool (Ent.vx e) 0); reflexivity. Qed.

(** C5, as the code has it.  For a delta that is not zero, a call of
    [moveEntityX] or [moveEntityY] whose scan stops at a solid cell leaves the
    box flush with that cell on the side the entity came from (right edge on
    the cell's left edge when moving right, left edge on the cell's right
    edge when moving left, bottom on the cell's top when moving down, top on
    the cell's bottom when moving up), clear of that cell, and with the
    velocity component of the axis equal to zero; a landing also sets
    [onGround].  The cell is the first solid one in row-major order; nothing
    is promised about the other cells under the box. *)
Theorem resolver_flush (level : list string) (ent : Ent.t) (d : Q)
  (Hd : ~ d == 0) :
  (forall c r,
     firstSolid level (Ent.set_x (Ent.x ent + d) ent) = Some (c, r) ->
     let ent' := moveEntityX level ent d in
     isSolidAtColRow level c r = true
     /\ (0 < d -> Ent.x ent' + Ent.w ent' == inject_Z c * TILE)
     /\ (d < 0 -> Ent.x ent' == inject_Z c * TILE + TILE)
     /\ rectsIntersect (entBox ent') (cellBox c r) = false
     /\ Ent.vx ent' == 0)
  /\
  (forall c r,
     firstSolid level (Ent.set_y (Ent.y ent + d) ent) = Some (c, r) ->
     let ent' := moveEntityY level ent d in
     isSolidAtColRow level c r = true
     /\ (0 < d -> Ent.y ent' + Ent.h ent' == inject_Z r * TILE
                  /\ Ent.onGround ent' = true)
     /\ (d < 0 -> Ent.y ent' == inject_Z r * TILE + TILE)
     /\ rectsIntersect (entBox ent') (cellBox c r) = false
     /\ Ent.vy ent' == 0).
Proof.
  split; intros c r Hscan ent'; subst ent'.
  - unfold moveEntityX. rewrite Hscan.
    pose proof (proj2 (firstSolid_Some _ _ _ _ Hscan)) as Hs.
    split; [exact Hs |].
    destruct (Qnot_eq_cases d Hd) as [Hpos | Hneg].
    + rewrite (Qltb_pos_neg d Hpos).
      split; [| split; [| split]].
      * intros _. destruct (Qeq_bool _ 0); simpl; ring.
      * intros Hneg. exfalso. lra.
      * rewrite vx_cleared_box. unfold rectsIntersect, entBox, cellBox. simpl.
        rewrite negb_false_iff, !orb_true_iff, !Qle_bool_iff.
        left; left; left. lra.
      * apply vx_cleared.
    + destruct (Qltb_neg_pos d Hneg) as [-> ->].
      split; [| split; [| split]].
      * intros Hpos. exfalso. lra.
      * intros _. destruct (Qeq_bool _ 0); simpl; reflexivity.
      * rewrite vx_cleared_box. unfold rectsIntersect, entBox, cellBox. simpl.
        rewrite negb_false_iff, !orb_true_iff, !Qle_bool_iff.
        left; left; right. lra.
      * apply vx_cleared.
  - unfold moveEntityY. rewrite Hscan.
    pose proof (proj2 (firstSolid_Some _ _ _ _ Hscan)) as Hs.
    split; [exact Hs |].
    destruct (Qnot_eq_cases d Hd) as [Hpos | Hneg].
    + rewrite (Qltb_pos_neg d Hpos).
      split; [| split; [| split]].
      * intros _. simpl. split; [ring | reflexivity].
      * intros Hneg. exfalso. lra.
      * unfold rectsIntersect, entBox, cellBox. simpl.
        rewrite negb_false_iff, !orb_true_iff, !Qle_bool_iff.
        left; right. lra.
      * reflexivity.
    + destruct (Qltb_neg_pos d Hneg) as [-> ->].
      split; [| split; [| split]].
      * intros Hpos. exfalso. lra.
      * intros _. reflexivity.
      * unfold rectsIntersect, entBox, cellBox. simpl.
        rewrite negb_false_iff, !orb_true_iff, !Qle_bool_iff.
        right. lra.
      * reflexivity.
Qed.

(** A wall one tile to the right, met while walking right. *)
Lemma resolver_flush_witness :
  let lvl := ["  #"%string] in
  let ent := Ent.mk 50 0 36 42 280 0 false 1 true in
  let ent' := moveEntityX lvl ent 12 in
  isSolidAtColRow lvl 2 0 = true
  /\ (0 < 12 -> Ent.x ent' + Ent.w ent' == inject_Z 2 * TILE)
  /\ (12 < 0 -> Ent.x ent' == inject_Z 2 * TILE + TILE)
  /\ rectsIntersect (entBox ent') (cellBox 2 0) = false
  /\ Ent.vx ent' == 0.
Proof.
  intros lvl ent.
  assert (Hd : ~ 12 == 0) by (intros H; discriminate H).
  exact (proj1 (resolver_flush lvl ent 12 Hd) 2%Z 0%Z eq_refl).
Defined.

(** C5 as the specification words it fails in two ways.  First, an entity
    that meets no solid tile and is moved right by more than a tile: the scan
    stops at cell (3, 0) and the box is put flush with it, but then it lies
    over the solid cell (2, 1) of the row below.  Second, a zero delta on an
    entity that lies over a solid cell: the scan finds the cell, and neither
    the position nor the velocity is touched. *)
Lemma resolver_flush_counterexample :
  (let lvl := ["   #"%string; "  ##"%string] in
   let ent := Ent.mk 50 30 36 42 280 0 false 1 true in
   let ent' := moveEntityX lvl ent 60 in
   (forall c r, In (c, r) [(3, 0); (2, 1); (3, 1)]%Z ->
                rectsIntersect (entBox ent) (cellBox c r) = false)
   /\ firstSolid lvl (Ent.set_x (Ent.x ent + 60) ent) = Some (3, 0)%Z
   /\ Ent.x ent' + Ent.w ent' == inject_Z 3 * TILE
   /\ isSolidAtColRow lvl 2 1 = true
   /\ rectsIntersect (entBox ent') (cellBox 2 1) = true)
  /\
  (let lvl := ["#"%string] in
   let ent := Ent.mk 0 0 36 42 0 40 false 1 true in
   let ent' := moveEntityY lvl ent 0 in
   firstSolid lvl (Ent.set_y (Ent.y ent + 0) ent) = Some (0, 0)%Z
   /\ ~ Ent.vy ent' == 0
   /\ rectsIntersect (entBox ent') (cellBox 0 0) = true).
Proof.
  split.
  - intros lvl ent ent'. split; [| split; [| split; [| split]]].
    + intros c r Hin. simpl in Hin.
      destruct Hin as [[= <- <-] | [[= <- <-] | [[= <- <-] | []]]]; reflexivity.
    + reflexivity.
    + reflexivity.
    + reflexivity.
    + reflexivity.
  - intros lvl ent ent'. split; [| split].
    + reflexivity.
    + intros H. discriminate H.
    + reflexivity.
Qed.

(** ** What the enemy loop and the fall check leave alone *)

Lemma hurt_frame (g : Game) :
  coins (hurt g) = coins g /\ enemies (hurt g) = enemies g
  /\ scoreRef (hurt g) = scoreRef g /\ tiles (hurt g) = tiles g
  /\ livesRef (hurt g) = (livesRef g - 1)%Z.
Proof.
  unfold hurt. simpl. destruct (livesRef g - 1 <=? 0)%Z; simpl; repeat split.
Qed.


Lemma setNth_same {A : Type} (i : nat) (v : A) (l : list A) :
  (i < List.length l)%nat -> nth_error (setNth i v l) i = Some v.
Proof.
  revert i. induction l as [|a l IH]; intros [|i]; simpl; try lia; try reflexivity.
  intros H. apply IH. lia.
Qed.

Lemma setNth_other {A : Type} (i j : nat) (v : A) (l : list A) :
  i <> j -> nth_error (setNth i v l) j = nth_error l j.
Proof.
  revert i j. induction l as [|a l IH]; intros [|i] [|j] H; simpl;
    try reflexivity; try congruence.
  apply IH. congruence.
Qed.

Lemma touch_coins (i : nat) (en : Enemy.t) (g : Game) :
  coins (touch i en g) = coins g.
Proof.
  unfold touch. destruct (rectsIntersect _ _); [| reflexivity].
  destruct (stompTest _ _); [reflexivity | apply hurt_frame].
Qed.

Lemma enemyStep_coins (level : list string) (dt : Q) (g : Game) (i : nat) :
  coins (enemyStep level dt g i) = coins g.
Proof.
  unfold enemyStep. destruct (nth_error _ _) as [en|]; [| reflexivity].
  destruct (negb _); [reflexivity |]. rewrite touch_coins. reflexivity.
Qed.

Lemma fold_enemyStep_coins (level : list string) (dt : Q) (l : list nat) (g : Game) :
  coins (fold_left (enemyStep level dt) l g) = coins g.
Proof.
  revert g. induction l as [|i l IH]; intros g; simpl; [reflexivity |].
  rewrite IH. apply enemyStep_coins.
Qed.

Lemma voidFall_coins (level : list string) (g : Game) :
  coins (voidFall level g) = coins g.
Proof.
  unfold voidFall. destruct (Qltb _ _); [apply hurt_frame | reflexivity].
Qed.

(** ** Coins *)

Lemma collectCoins_nth (p : Ent.t) (cs : list Coin.t) (s : Z) (i : nat) (coin : Coin.t) :
  nth_error cs i = Some coin ->
  nth_error (fst (collectCoins p cs s)) i
  = Some (if fresh p coin then Coin.set_picked true coin else coin).
Proof.
  revert s i. induction cs as [|k cs IH]; intros s i; [destruct i; discriminate |].
  simpl. fold (fresh p k). destruct i as [|i]; simpl.
  - intros [= ->]. destruct (fresh p coin);
      destruct (collectCoins p cs _) as [rest' s']; reflexivity.
  - intros H. destruct (fresh p k).
    + specialize (IH (s + 1)%Z i H).
      destruct (collectCoins p cs _) as [rest' s']. exact IH.
    + specialize (IH s i H).
      destruct (collectCoins p cs _) as [rest' s']. exact IH.
Qed.

Lemma collectCoins_score (p : Ent.t) (cs : list Coin.t) (s : Z) :
  snd (collectCoins p cs s)
  = (s + Z.of_nat (List.length (filter (fresh p) cs)))%Z.
Proof.
  revert s. induction cs as [|k cs IH]; intros s; simpl; [lia |].
  fold (fresh p k). destruct (fresh p k).
  - specialize (IH (s + 1)%Z). destruct (collectCoins p cs _) as [rest' s'].
    simpl in *. lia.
  - specialize (IH s). destruct (collectCoins p cs _) as [rest' s'].
    simpl in *. exact IH.
Qed.

Lemma collectCoins_again (p : Ent.t) (cs : list Coin.t) (s s2 : Z) :
  collectCoins p (fst (collectCoins p cs s)) s2
  = (fst (collectCoins p cs s), s2).
Proof.
  revert s s2. induction cs as [|k cs IH]; intros s s2; simpl; [reflexivity |].
  fold (fresh p k). destruct (fresh p k) eqn:E.
  - specialize (IH (s + 1)%Z s2). destruct (collectCoins p cs _) as [rest' s'].
    simpl in *. rewrite IH. reflexivity.
  - specialize (IH s s2). destruct (collectCoins p cs _) as [rest' s'].
    simpl in *. fold (fresh p k). rewrite E, IH. reflexivity.
Qed.

Lemma update_coins (level : list string) (keys : Keys) (dt : Q) (g : Game) :
  coins (update level keys dt g)
  = if Ent.alive (player g)
    then fst (collectCoins (movePlayer level keys dt (player g))
                           (coins g) (scoreRef g))
    else coins g.
Proof.
  unfold update. destruct (Ent.alive (player g)); simpl; [| reflexivity].
  rewrite voidFall_coins. unfold enemiesLoop. rewrite fold_enemyStep_coins.
  unfold coinPhase. simpl. destruct (collectCoins _ _ _). reflexivity.
Qed.

(** One pass of the coin loop marks exactly the coins that were not yet
    picked and whose 20x20 box meets the player, adds one to the score for
    each of them and nothing else, and leaves every other coin as it was.  A
    second pass at the same place changes neither a coin nor the score, and a
    coin that is picked comes out of any later step unchanged. *)
Lemma coinPhase_picks (g : Game) :
  let g' := coinPhase g in
  (forall i coin, nth_error (coins g) i = Some coin ->
     (Coin.picked coin = false ->
      rectsIntersect (coinBox coin) (entBox (player g)) = true ->
      nth_error (coins g') i = Some (Coin.set_picked true coin))
     /\ (Coin.picked coin = true
         \/ rectsIntersect (coinBox coin) (entBox (player g)) = false ->
         nth_error (coins g') i = Some coin))
  /\ scoreRef g'
     = (scoreRef g
        + Z.of_nat (List.length
            (filter (fun coin =>
                       negb (Coin.picked coin)
                       && rectsIntersect (coinBox coin) (entBox (player g)))
                    (coins g))))%Z
  /\ coinPhase g' = g'
  /\ (forall level keys dt i coin,
        nth_error (coins g) i = Some coin -> Coin.picked coin = true ->
        nth_error (coins (update level keys dt g)) i = Some coin).
Proof.
  unfold coinPhase.
  pose proof (collectCoins_nth (player g) (coins g) (scoreRef g)) as Hnth.
  pose proof (collectCoins_score (player g) (coins g) (scoreRef g)) as Hscore.
  pose proof (collectCoins_again (player g) (coins g) (scoreRef g)) as Hagain.
  destruct (collectCoins (player g) (coins g) (scoreRef g)) as [cs' s'] eqn:E.
  simpl in *. split; [| split; [| split]].
  - intros i coin Hi. specialize (Hnth i coin Hi). unfold fresh in Hnth. split.
    + intros Hp Hr. rewrite Hp, Hr in Hnth. exact Hnth.
    + intros [Hp | Hr]; [rewrite Hp in Hnth | rewrite Hr, andb_false_r in Hnth];
        exact Hnth.
  - exact Hscore.
  - rewrite Hagain. reflexivity.
  - intros level keys dt i coin Hi Hp. rewrite update_coins.
    destruct (Ent.alive (player g)); [| exact Hi].
    rewrite (collectCoins_nth _ _ _ _ _ Hi). unfold fresh. rewrite Hp. reflexivity.
Qed.

(** ** Stomp or damage *)


Lemma nth_error_lt {A : Type} (l : list A) (i : nat) (a : A) :
  nth_error l i = Some a -> (i < List.length l)%nat.
Proof. intros H. apply nth_error_Some. congruence. Qed.



(** ** Losing a life *)

Lemma touch_hurt (i : nat) (en : Enemy.t) (g : Game) :
  rectsIntersect (enemyBox en) (entBox (player g)) = true ->
  stompTest (player g) en = false ->
  touch i en g = hurt g.
Proof. unfold touch. intros -> ->. reflexivity. Qed.

Lemma voidFall_hurt (level : list string) (g : Game) :
  worldH level + 500 < Ent.y (player g) -> voidFall level g = hurt g.
Proof.
  intros H. unfold voidFall. apply Qltb_lt in H. rewrite H. reflexivity.
Qed.

(** C1, as the code has it.  A loss of life that leaves at least one life
    puts the player at the fixed point [(2 * TILE, 0)], the place the player
    object is created at before the level is read, and not at the place of
    the level's P marker; both velocity components become zero.  Coins,
    enemies (flags and positions) and the score are as before, and one life
    is gone.  This is what the damage branch of the enemy loop does and what
    the fall check does. *)
Theorem life_loss_respawn (level : list string) (g : Game) :
  (0 < livesRef g - 1)%Z ->
  let g' := hurt g in
  (Ent.x (player g') == TILE * 2 /\ Ent.y (player g') == 0
   /\ Ent.x (player g') = Ent.x initialPlayer
   /\ Ent.y (player g') = Ent.y initialPlayer)
  /\ (Ent.vx (player g') == 0 /\ Ent.vy (player g') == 0)
  /\ Ent.alive (player g') = Ent.alive (player g)
  /\ coins g' = coins g
  /\ enemies g' = enemies g
  /\ scoreRef g' = scoreRef g
  /\ livesRef g' = (livesRef g - 1)%Z
  /\ (forall i en,
        rectsIntersect (enemyBox en) (entBox (player g)) = true ->
        stompTest (player g) en = false ->
        touch i en g = g')
  /\ (worldH level + 500 < Ent.y (player g) -> voidFall level g = g').
Proof.
  intros Hl g'. subst g'.
  assert (E : hurt g = set_player (respawn (player g))
                         (set_livesRef (livesRef g - 1)%Z g)).
  { unfold hurt. simpl. destruct (livesRef g - 1 <=? 0)%Z eqn:El;
      [apply Z.leb_le in El; lia | reflexivity]. }
  split; [| split; [| split; [| split; [| split; [| split; [| split; [| split]]]]]]].
  - rewrite E. simpl. repeat split; reflexivity.
  - rewrite E. simpl. split; reflexivity.
  - rewrite E. reflexivity.
  - rewrite E. reflexivity.
  - rewrite E. reflexivity.
  - rewrite E. reflexivity.
  - rewrite E. reflexivity.
  - intros i en. apply touch_hurt.
  - apply voidFall_hurt.
Qed.

(** A player below the shipped level, with all three lives. *)
Lemma life_loss_respawn_witness :
  let g := mkGame [] [] [] (Ent.mk 54 1000 36 42 0 1700 false 1 true) 0%Z 3%Z in
  Ent.x (player (voidFall level0 g)) == 96
  /\ Ent.y (player (voidFall level0 g)) == 0
  /\ livesRef (voidFall level0 g) = 2%Z.
Proof.
  intros g.
  assert (Hl : (0 < livesRef g - 1)%Z) by reflexivity.
  assert (Hv : worldH level0 + 500 < Ent.y (player g)) by reflexivity.
  destruct (life_loss_respawn level0 g Hl)
    as ((Hx & Hy & _) & _ & _ & _ & _ & _ & Hlives & _ & Hvoid).
  rewrite (Hvoid Hv). split; [exact Hx | split; [exact Hy | exact Hlives]].
Defined.

(** C1 as the specification words it fails on the shipped level.  The level
    puts the player at (54, 294), the place of its P marker.  Walking right
    off the first ledge and falling takes the player below the world; the
    step that takes the life puts it at (96, 0). *)
Lemma respawn_not_at_marker :
  let g0 := mount level0 in
  let g := run level0 intoTheGap g0 in
  let g' := update level0 idle slowFrame g in
  (Qred (Ent.x (player g0)), Qred (Ent.y (player g0)), livesRef g0) = (54, 294, 3%Z)
  /\ (livesRef g, Ent.alive (player g)) = (3%Z, true)
  /\ (Qred (Ent.x (player g')), Qred (Ent.y (player g')), livesRef g',
      Ent.alive (player g'))
     = (96, 0, 2%Z, true)
  /\ ~ Ent.x (player g') == Ent.x (player g0)
  /\ ~ Ent.y (player g') == Ent.y (player g0).
Proof.
  vm_compute. repeat split; intros H; discriminate H.
Qed.

(** ** Death and the lives counter *)

(** A dead player freezes the world: the step returns it as it is. *)
Lemma update_dead (level : list string) (keys : Keys) (dt : Q) (g : Game) :
  Ent.alive (player g) = false -> update level keys dt g = g.
Proof. intros H. unfold update. rewrite H. reflexivity. Qed.

Lemma run_dead (level : list string) (frames : list (Keys * Q)) (g : Game) :
  Ent.alive (player g) = false -> run level frames g = g.
Proof.
  unfold run. induction frames as [|f frames IH]; intros H; simpl; [reflexivity |].
  rewrite update_dead by exact H. apply IH. exact H.
Qed.

(** C2, where the code departs from it.  On the level [twoEnemies] the
    player, down to its last life after two hits, jumps from below into the
    two enemies at once.  Within that one step the first enemy takes the last
    life and the player dies; the loop goes on to the second enemy, whose
    box the dead player still meets, and takes a life again: the counter ends
    at -1, and stays there in every later step. *)
Lemma lives_below_zero :
  (livesRef lastLife, Ent.alive (player lastLife)) = (1%Z, true)
  /\ (livesRef (lastJumpEnemy 1), Ent.alive (player (lastJumpEnemy 1)))
     = (0%Z, false)
  /\ (livesRef (lastJumpEnemy 2), Ent.alive (player (lastJumpEnemy 2)))
     = ((-1)%Z, false)
  /\ (livesRef lastJump, Ent.alive (player lastJump)) = ((-1)%Z, false)
  /\ (forall frames, livesRef (run twoEnemies frames lastJump) = (-1)%Z).
Proof.
  split; [vm_compute; reflexivity |].
  split; [vm_compute; reflexivity |].
  split; [vm_compute; reflexivity |].
  split; [vm_compute; reflexivity |].
  intros frames. rewrite run_dead; vm_compute; reflexivity.
Qed.

(** ** Restart *)

Lemma nth_error_map_some {A B : Type} (f : A -> B) (l : list A) (i : nat) (a : A) :
  nth_error l i = Some a -> nth_error (map f l) i = Some (f a).
Proof.
  revert i. induction l as [|b l IH]; intros [|i]; simpl; try discriminate.
  - intros [= ->]. reflexivity.
  - apply IH.
Qed.

(** C3, as the code has it.  [restartLevel] sets the score to 0, marks
    every coin as not picked and every enemy as alive, each where it stands,
    puts the player at the fixed point [(2 * TILE, 0)] and zeroes its
    velocity.  The lives are not set back to 3: a negative count becomes 0
    and any other count is kept. *)
Theorem restartLevel_resets (g : Game) :
  let g' := restartLevel g in
  scoreRef g' = 0%Z
  /\ livesRef g' = Z.max 0 (livesRef g)
  /\ (forall coin, In coin (coins g') -> Coin.picked coin = false)
  /\ (forall i coin, nth_error (coins g) i = Some coin ->
        nth_error (coins g') i = Some (Coin.set_picked false coin))
  /\ (forall en, In en (enemies g') -> Enemy.alive en = true)
  /\ (forall i en, nth_error (enemies g) i = Some en ->
        nth_error (enemies g') i = Some (Enemy.set_alive true en))
  /\ (Ent.x (player g') == TILE * 2 /\ Ent.y (player g') == 0)
  /\ (Ent.vx (player g') == 0 /\ Ent.vy (player g') == 0).
Proof.
  unfold restartLevel. simpl.
  split; [reflexivity |]. split; [reflexivity |].
  split; [| split; [| split; [| split; [| split]]]].
  - intros coin Hin. apply in_map_iff in Hin. destruct Hin as [k [<- _]]. reflexivity.
  - intros i coin. apply nth_error_map_some.
  - intros en Hin. apply in_map_iff in Hin. destruct Hin as [k [<- _]]. reflexivity.
  - intros i en. apply nth_error_map_some.
  - split; reflexivity.
  - split; reflexivity.
Qed.

Lemma restartLevel_resets_witness :
  let g := mkGame [] [Coin.mk 24 24 0 0 true] [Enemy.mk 50 8 36 36 60 1 false]
                  (Ent.mk 300 54 36 42 280 0 true 1 true) 7%Z 2%Z in
  nth_error (coins (restartLevel g)) 0 = Some (Coin.mk 24 24 0 0 false)
  /\ nth_error (enemies (restartLevel g)) 0 = Some (Enemy.mk 50 8 36 36 60 1 true)
  /\ Coin.picked (Coin.mk 24 24 0 0 false) = false.
Proof.
  intros g.
  destruct (restartLevel_resets g) as (_ & _ & Hall & Hc & _ & He & _).
  split; [exact (Hc 0%nat _ eq_refl) |].
  split; [exact (He 0%nat _ eq_refl) |].
  apply Hall. left. reflexivity.
Defined.

(** C3 as the specification words it fails on [twoEnemies].  The level puts
    the player at (6, 6) with 3 lives.  Restarting with one life left keeps
    the one life, and restarting after the game is over gives 0 lives and a
    player that is still dead; both times the player is at (96, 0). *)
Lemma restartLevel_not_initial :
  (Qred (Ent.x (player (mount twoEnemies))),
   Qred (Ent.y (player (mount twoEnemies))),
   livesRef (mount twoEnemies), Ent.alive (player (mount twoEnemies)))
  = (6, 6, 3%Z, true)
  /\ (Qred (Ent.x (player (restartLevel lastLife))),
      Qred (Ent.y (player (restartLevel lastLife))),
      livesRef (restartLevel lastLife), Ent.alive (player (restartLevel lastLife)))
     = (96, 0, 1%Z, true)
  /\ (Qred (Ent.x (player (restartLevel lastJump))),
      Qred (Ent.y (player (restartLevel lastJump))),
      livesRef (restartLevel lastJump), Ent.alive (player (restartLevel lastJump)))
     = (96, 0, 0%Z, false).
Proof.
  split; [vm_compute; reflexivity |].
  split; vm_compute; reflexivity.
Qed.

(** ** Construction *)

Lemma hasChar_get (ch : ascii) (s : string) (c : nat) :
  hasChar ch s = false -> String.get c s <> Some ch.
Proof.
  revert c. induction s as [|a s IH]; intros c; simpl; [discriminate |].
  rewrite orb_false_iff. intros [Ha Hs]. destruct c as [|c].
  - intros [= ->]. rewrite Ascii.eqb_refl in Ha. discriminate.
  - apply IH. exact Hs.
Qed.

Lemma parseCell_player (row : string) (r c : nat) (g : Game) :
  String.get c row <> Some "P"%char ->
  player (parseCell row r c g) = player g.
Proof.
  intros Hget. unfold parseCell.
  assert (E : Ascii.eqb (match String.get c row with
                         | Some ch => ch
                         | None => " "%char
                         end) "P" = false).
  { destruct (String.get c row) as [ch|]; [| reflexivity].
    apply Ascii.eqb_neq. intros ->. apply Hget. reflexivity. }
  rewrite E.
  destruct (Ascii.eqb _ "#"), (Ascii.eqb _ "C"), (Ascii.eqb _ "E"); reflexivity.
Qed.

Lemma fold_cells_player (row : string) (r : nat) (l : list nat) (g : Game) :
  hasChar "P" row = false ->
  player (fold_left (fun g c => parseCell row r c g) l g) = player g.
Proof.
  intros Hrow. revert g. induction l as [|c l IH]; intros g; simpl; [reflexivity |].
  rewrite IH. apply parseCell_player. apply hasChar_get. exact Hrow.
Qed.

Lemma fold_rows_player (level : list string) (l : list nat) (g : Game) :
  hasMarker "P" level = false ->
  player (fold_left (parseRow level) l g) = player g.
Proof.
  intros Hno. revert g. induction l as [|r l IH]; intros g; simpl; [reflexivity |].
  rewrite IH. unfold parseRow. apply fold_cells_player.
  destruct (nth_in_or_default r level EmptyString) as [Hin | ->]; [| reflexivity].
  unfold hasMarker in Hno.
  destruct (hasChar "P" (nth r level EmptyString)) eqn:E; [| reflexivity].
  assert (Hex : existsb (hasChar "P") level = true).
  { apply existsb_exists. exists (nth r level EmptyString). split; assumption. }
  congruence.
Qed.

(** C9, as the code has it.  Construction never ends in an error.  From a
    level without a P marker, and so from a level without rows or with empty
    rows only, it builds a world whose player is the object of lines 87-97
    untouched, at the fixed point [(2 * TILE, 0)]. *)
Theorem construct_without_marker (level : list string) :
  hasMarker "P" level = false ->
  exists g, construct level = Built g
            /\ player g = initialPlayer
            /\ Ent.x (player g) == TILE * 2 /\ Ent.y (player g) == 0.
Proof.
  intros Hno. exists (mount level). split; [reflexivity |].
  assert (E : player (mount level) = initialPlayer).
  { unfold mount, parseLevel. rewrite fold_rows_player by exact Hno. reflexivity. }
  rewrite E. repeat split.
Qed.

Lemma construct_without_marker_witness :
  exists g, construct ["###"%string] = Built g
            /\ player g = initialPlayer
            /\ Ent.x (player g) == TILE * 2 /\ Ent.y (player g) == 0.
Proof.
  apply (construct_without_marker ["###"%string]). reflexivity.
Defined.

(** C9 as the specification words it fails: a level of three solid tiles and
    no P marker, a level without rows and a level of one empty row are all
    built, none ends in an error.  In the first the player is placed at
    (96, 0), over the solid tile of column 2. *)
Lemma construct_does_not_fail :
  (hasMarker "P" ["###"%string] = false
   /\ construct ["###"%string] <> ConfigError
   /\ isSolidAtColRow ["###"%string] 2 0 = true
   /\ rectsIntersect (entBox (player (mount ["###"%string]))) (cellBox 2 0) = true)
  /\ (hasMarker "P" [] = false /\ construct [] <> ConfigError)
  /\ (hasMarker "P" [EmptyString] = false /\ construct [EmptyString] <> ConfigError).
Proof.
  repeat split; try reflexivity; discriminate.
Qed.

(** * Further properties of the code *)

(** ** Floors, once more *)

Lemma floorDiv_ge_conv (v : Q) (c : Z) :
  inject_Z c * TILE <= v -> (c <= floorDiv v TILE)%Z.
Proof.
  intros H. unfold floorDiv.
  rewrite <- (Qfloor_Z c). apply Qfloor_resp_le.
  apply Qle_shift_div_l; [reflexivity | exact H].
Qed.

Lemma floorDiv_lt_conv (v : Q) (c : Z) :
  v < inject_Z c * TILE + TILE -> (floorDiv v TILE <= c)%Z.
Proof.
  intros H. unfold floorDiv.
  assert (H1 : v / TILE < inject_Z (c + 1)).
  { apply Qlt_shift_div_r; [reflexivity |].
    rewrite inject_Z_plus.
    setoid_replace ((inject_Z c + inject_Z 1) * TILE)
      with (inject_Z c * TILE + TILE) by ring.
    exact H. }
  assert (H2 : inject_Z (Qfloor (v / TILE)) < inject_Z (c + 1)).
  { apply Qle_lt_trans with (v / TILE); [apply Qfloor_le | exact H1]. }
  rewrite <- Zlt_Qlt in H2. lia.
Qed.

Lemma span_floor (v s : Q) (k : Z) :
  span v s k <-> (floorDiv v TILE <= k <= floorDiv (v + s - 1) TILE)%Z.
Proof.
  unfold span. split.
  - intros [H1 H2]. split; [apply floorDiv_lt_conv | apply floorDiv_ge_conv];
      assumption.
  - intros [H1 H2]. split; [apply floorDiv_lt | apply floorDiv_ge]; assumption.
Qed.

Lemma inScan_span (ent : Ent.t) (c r : Z) :
  inScan ent c r <->
  span (Ent.x ent) (Ent.w ent) c /\ span (Ent.y ent) (Ent.h ent) r.
Proof. unfold inScan. rewrite !span_floor. tauto. Qed.

Lemma firstSolid_None_iff (level : list string) (ent : Ent.t) :
  firstSolid level ent = None <->
  (forall c r, inScan ent c r -> isSolidAtColRow level c r = false).
Proof.
  split; [apply firstSolid_None |].
  intros H. destruct (firstSolid level ent) as [[c r]|] eqn:E; [| reflexivity].
  apply firstSolid_Some in E. destruct E as [Hin Hs].
  rewrite (H _ _ Hin) in Hs. discriminate.
Qed.

(** An integer strictly below another is at least one below it. *)
Lemma inject_Z_lt_step (a b : Z) :
  inject_Z a < inject_Z b -> inject_Z a + 1 <= inject_Z b.
Proof.
  rewrite <- Zlt_Qlt. intros H.
  assert (E : inject_Z a + 1 == inject_Z (a + 1)) by (rewrite inject_Z_plus; reflexivity).
  rewrite E. rewrite <- Zle_Qle. lia.
Qed.

Lemma tile_lt_step (k c : Z) :
  inject_Z k * TILE < inject_Z c * TILE ->
  inject_Z k * TILE + TILE <= inject_Z c * TILE.
Proof.
  intros H.
  assert (Hk : inject_Z k < inject_Z c).
  { apply Qmult_lt_r with TILE; [reflexivity | exact H]. }
  apply inject_Z_lt_step in Hk. unfold TILE in *. lra.
Qed.

(** ** Boxes *)

(** X1.  [rectsIntersect] does not depend on the order of its two boxes, and
    it holds exactly when the boxes overlap on both axes by more than an
    edge: boxes that only touch do not intersect. *)
Theorem rectsIntersect_sym_open (a b : Rect) :
  rectsIntersect a b = rectsIntersect b a
  /\ (rectsIntersect a b = true <->
      (rect_x b < rect_x a + rect_w a /\ rect_x a < rect_x b + rect_w b)
      /\ (rect_y b < rect_y a + rect_h a /\ rect_y a < rect_y b + rect_h b)).
Proof.
  unfold rectsIntersect. split.
  - destruct (Qle_bool (rect_x a + rect_w a) (rect_x b)),
             (Qle_bool (rect_x b + rect_w b) (rect_x a)),
             (Qle_bool (rect_y a + rect_h a) (rect_y b)),
             (Qle_bool (rect_y b + rect_h b) (rect_y a)); reflexivity.
  - rewrite negb_true_iff, !orb_false_iff, !Qle_bool_false. tauto.
Qed.

(** ** The grid *)

Lemma fold_max_attained (l : list Z) (a : Z) :
  fold_left Z.max l a = a \/ In (fold_left Z.max l a) l.
Proof.
  revert a. induction l as [|b l IH]; intros a; simpl; [left; reflexivity |].
  destruct (IH (Z.max a b)) as [E | Hin].
  - rewrite E. destruct (Z.max_spec a b) as [[_ ->] | [_ ->]]; auto.
  - right. right. exact Hin.
Qed.

(** X2.  [cols] is the length of a longest row: no row is longer and some
    row has exactly that length.  It is [-Infinity] (here [None]) exactly for
    the level without rows. *)
Theorem cols_is_max (level : list string) :
  (cols level = None <-> level = [])
  /\ (forall n, cols level = Some n ->
        (forall row, In row level -> (Z.of_nat (String.length row) <= n)%Z)
        /\ (exists row, In row level /\ Z.of_nat (String.length row) = n)).
Proof.
  split.
  - destruct level; simpl; split; intros H; try reflexivity; discriminate.
  - intros n Hn. destruct level as [|r0 rest]; [discriminate |].
    simpl in Hn. injection Hn as <-. split.
    + intros row [-> | Hin].
      * apply fold_max_ge.
      * apply fold_max_in. apply in_map_iff. exists row. auto.
    + destruct (fold_max_attained
                  (map (fun r => Z.of_nat (String.length r)) rest)
                  (Z.of_nat (String.length r0))) as [E | Hin].
      * exists r0. split; [left; reflexivity | symmetry; exact E].
      * apply in_map_iff in Hin. destruct Hin as [row [E Hin]].
        exists row. split; [right; exact Hin | exact E].
Qed.

Lemma cols_is_max_witness :
  (forall row, In row level0 -> (Z.of_nat (String.length row) <= 81)%Z)
  /\ (exists row, In row level0 /\ Z.of_nat (String.length row) = 81%Z).
Proof.
  exact (proj2 (cols_is_max level0) 81%Z eq_refl).
Defined.

(** ** The vertical resolver *)

Lemma moveEntityY_fields (level : list string) (ent : Ent.t) (dy : Q) :
  let ent' := moveEntityY level ent dy in
  Ent.x ent' = Ent.x ent
  /\ Ent.w ent' = Ent.w ent
  /\ Ent.h ent' = Ent.h ent
  /\ Ent.vx ent' = Ent.vx ent
  /\ Ent.facing ent' = Ent.facing ent
  /\ Ent.alive ent' = Ent.alive ent.
Proof.
  unfold moveEntityY.
  destruct (firstSolid level _) as [[c r]|]; simpl.
  - destruct (Qltb 0 dy); [| destruct (Qltb dy 0)]; simpl; repeat split.
  - repeat split.
Qed.

Lemma moveEntityX_fields (level : list string) (ent : Ent.t) (dx : Q) :
  let ent' := moveEntityX level ent dx in
  Ent.y ent' = Ent.y ent
  /\ Ent.w ent' = Ent.w ent
  /\ Ent.h ent' = Ent.h ent
  /\ Ent.vy ent' = Ent.vy ent
  /\ Ent.alive ent' = Ent.alive ent.
Proof.
  unfold moveEntityX.
  destruct (firstSolid level _) as [[c r]|]; simpl.
  - destruct (Qltb 0 dx); [| destruct (Qltb dx 0)];
      simpl; destruct (Qeq_bool (Ent.vx ent) 0); simpl; repeat split.
  - repeat split.
Qed.

(** X3.  A call of [moveEntityY] writes only [y], [vy] and [onGround] of the
    entity; [x], [w], [h], [vx], [facing] and [alive] are the same before
    and after. *)
Theorem moveEntityY_frame (level : list string) (ent : Ent.t) (dy : Q) :
  let ent' := moveEntityY level ent dy in
  Ent.x ent' = Ent.x ent
  /\ Ent.w ent' = Ent.w ent
  /\ Ent.h ent' = Ent.h ent
  /\ Ent.vx ent' = Ent.vx ent
  /\ Ent.facing ent' = Ent.facing ent
  /\ Ent.alive ent' = Ent.alive ent.
Proof. exact (moveEntityY_fields level ent dy). Qed.

(** ** The camera *)

Lemma Math_max_spec (a b : Q) :
  a <= Math_max a b /\ b <= Math_max a b
  /\ (Math_max a b == a \/ Math_max a b == b).
Proof.
  unfold Math_max. destruct (Qle_bool a b) eqn:E.
  - apply Qle_bool_iff in E.
    split; [lra | split; [lra | right; reflexivity]].
  - apply Qle_bool_false in E.
    split; [lra | split; [lra | left; reflexivity]].
Qed.

Lemma Math_min_spec (a b : Q) :
  Math_min a b <= a /\ Math_min a b <= b
  /\ (Math_min a b == a \/ Math_min a b == b).
Proof.
  unfold Math_min. destruct (Qle_bool a b) eqn:E.
  - apply Qle_bool_iff in E.
    split; [lra | split; [lra | left; reflexivity]].
  - apply Qle_bool_false in E.
    split; [lra | split; [lra | right; reflexivity]].
Qed.

(** X4.  The camera offset is never negative.  In a world at least as wide
    as the view, the view stays inside the world, a player inside the world
    is inside the view, and away from the two ends the player sits one third
    of the view from its left edge.  In a narrower world the offset is 0. *)
Theorem camX_bounds (level : list string) (p : Ent.t) :
  0 <= camX level p
  /\ (forall W, worldW level = Some W ->
        (VIEW_W <= W ->
           camX level p + VIEW_W <= W
           /\ (0 <= Ent.x p <= W ->
                 camX level p <= Ent.x p <= camX level p + VIEW_W)
           /\ (VIEW_W / 3 <= Ent.x p <= W - VIEW_W + VIEW_W / 3 ->
                 camX level p == Ent.x p - VIEW_W / 3))
        /\ (W <= VIEW_W -> camX level p == 0)).
Proof.
  unfold camX. destruct (worldW level) as [W0|].
  - pose proof (Math_min_spec (Ent.x p - VIEW_W / 3) (W0 - VIEW_W))
      as (Hm1 & Hm2 & Hm3).
    pose proof (Math_max_spec 0 (Math_min (Ent.x p - VIEW_W / 3) (W0 - VIEW_W)))
      as (HM1 & HM2 & HM3).
    assert (Hthird : VIEW_W / 3 == 320) by reflexivity.
    set (third := VIEW_W / 3) in *.
    set (m := Math_min (Ent.x p - third) (W0 - VIEW_W)) in *.
    set (M := Math_max 0 m) in *.
    unfold VIEW_W in *.
    split; [exact HM1 |]. intros W [= <-]. split.
    + intros HW. split; [| split].
      * destruct HM3, Hm3; lra.
      * intros [Hx1 Hx2]. destruct HM3, Hm3; split; lra.
      * intros [Hx1 Hx2]. destruct HM3, Hm3; apply Qle_antisym; lra.
    + intros HW. destruct HM3, Hm3; apply Qle_antisym; lra.
  - split; [discriminate |]. intros W H. discriminate H.
Qed.

Lemma camX_bounds_witness :
  camX level0 (player (mount level0)) + VIEW_W <= 3888
  /\ camX level0 (Ent.mk 2000 294 36 42 0 0 true 1 true) == 2000 - VIEW_W / 3.
Proof.
  split.
  - exact (proj1 (proj1 (proj2 (camX_bounds level0 (player (mount level0)))
                           3888 eq_refl) ltac:(discriminate))).
  - apply (proj2 (proj2 (proj1 (proj2 (camX_bounds level0
             (Ent.mk 2000 294 36 42 0 0 true 1 true)) 3888 eq_refl)
             ltac:(discriminate)))).
    split; discriminate.
Defined.

(** ** The patrol of an enemy *)

(** X5.  An enemy as the level makes it stands 8 below the top of its row
    and is 36 high, so the row [patrol] looks at is the enemy's own row, not
    the one under its feet.  When that row holds no solid tile, every call of
    [patrol] reverses the direction; two calls with the same frame time
    bring the enemy back to where it was, facing as before. *)
Theorem patrol_turns_every_frame (level : list string) (dt : Q) (en : Enemy.t)
  (r : Z) :
  Enemy.y en == inject_Z r * TILE + 8 ->
  Enemy.h en == 36 ->
  (forall c, isSolidAtColRow level c r = false) ->
  let en1 := patrol level dt en in
  let en2 := patrol level dt en1 in
  floorDiv (Enemy.y en + Enemy.h en + 1) TILE = r
  /\ Enemy.x en1 == Enemy.x en + Enemy.dir en * Enemy.speed en * dt
  /\ Enemy.dir en1 == - Enemy.dir en
  /\ Enemy.x en2 == Enemy.x en
  /\ Enemy.dir en2 == Enemy.dir en
  /\ (Enemy.y en2 = Enemy.y en /\ Enemy.alive en2 = Enemy.alive en).
Proof.
  intros Hy Hh Hrow.
  assert (Hfoot : floorDiv (Enemy.y en + Enemy.h en + 1) TILE = r).
  { apply Z.le_antisymm.
    - apply floorDiv_lt_conv. unfold TILE in *. lra.
    - apply floorDiv_ge_conv. unfold TILE in *. lra. }
  assert (Hstep : forall e, Enemy.y e = Enemy.y en -> Enemy.h e = Enemy.h en ->
            patrol level dt e
            = Enemy.set_dir (Enemy.dir e * -1)
                (Enemy.set_x (Enemy.x e + Enemy.dir e * Enemy.speed e * dt) e)).
  { intros e Ey Eh. unfold patrol. simpl. rewrite Ey, Eh, Hfoot, Hrow. reflexivity. }
  intros en1 en2. subst en2 en1.
  rewrite (Hstep en eq_refl eq_refl).
  rewrite Hstep by reflexivity. simpl.
  split; [exact Hfoot |]. split; [reflexivity |]. split; [ring |].
  split; [ring |]. split; [ring |]. split; reflexivity.
Qed.

Lemma patrol_turns_every_frame_witness :
  let en := Enemy.mk 48 8 36 36 60 1 true in
  Enemy.x (patrol [" E "%string] (1 # 25) (patrol [" E "%string] (1 # 25) en))
  == Enemy.x en.
Proof.
  intros en.
  assert (Hrow : forall c, isSolidAtColRow [" E "%string] c 0 = false).
  { intros c. destruct (isSolidAtColRow [" E "%string] c 0) eqn:E; [| reflexivity].
    pose proof (isSolid_true_inside _ _ _ E) as (_ & Hc & Hg).
    apply geCols_false in Hg. destruct Hg as [n [Hn Hlt]].
    injection Hn as <-. simpl in Hlt.
    assert (Hcases : c = 0%Z \/ c = 1%Z \/ c = 2%Z) by lia.
    destruct Hcases as [-> | [-> | ->]]; discriminate E. }
  exact (proj1 (proj2 (proj2 (proj2
           (patrol_turns_every_frame [" E "%string] (1 # 25) en 0
              ltac:(reflexivity) ltac:(reflexivity) Hrow))))).
Defined.

(** ** Steps of at most one tile never end inside a wall *)

Lemma span_clamp_right (x w d : Q) (n c k : Z) :
  w == inject_Z n -> 0 < d -> d <= TILE ->
  span (x + d) w c -> ~ span x w c ->
  span (inject_Z c * TILE - w) w k ->
  span x w k.
Proof.
  unfold span, TILE. intros Hw Hd1 Hd2 [H1 H2] Hnot [H4 H5].
  assert (F2 : x + w - 1 < inject_Z c * 48).
  { destruct (Qlt_le_dec (x + w - 1) (inject_Z c * 48)) as [H | H]; [exact H |].
    exfalso. apply Hnot. split; lra. }
  assert (F3 : inject_Z k * 48 + 48 <= inject_Z c * 48).
  { apply (tile_lt_step k c). unfold TILE. lra. }
  assert (F4 : inject_Z (c * 48 - n) + 1 <= inject_Z (k * 48 + 48)).
  { apply inject_Z_lt_step.
    unfold Zminus. rewrite !inject_Z_plus, !inject_Z_mult, inject_Z_opp.
    change (inject_Z 48) with 48. lra. }
  unfold Zminus in F4. rewrite !inject_Z_plus, !inject_Z_mult, inject_Z_opp in F4.
  change (inject_Z 48) with 48 in F4.
  split; lra.
Qed.

Lemma span_clamp_left (x w d : Q) (c k : Z) :
  d < 0 -> - TILE <= d ->
  span (x + d) w c -> ~ span x w c ->
  span (inject_Z c * TILE + TILE) w k ->
  span x w k.
Proof.
  unfold span, TILE. intros Hd1 Hd2 [H1 H2] Hnot [H4 H5].
  assert (F2 : inject_Z c * 48 + 48 <= x).
  { destruct (Qlt_le_dec x (inject_Z c * 48 + 48)) as [H | H]; [| exact H].
    exfalso. apply Hnot. split; lra. }
  assert (F3 : inject_Z c * 48 + 48 <= inject_Z k * 48).
  { apply (tile_lt_step c k). unfold TILE. lra. }
  split; lra.
Qed.

Lemma span_zero (x w d : Q) (k : Z) : d == 0 -> span (x + d) w k -> span x w k.
Proof. unfold span. intros Hd [H1 H2]. split; lra. Qed.

Lemma inScan_vx_cleared (e : Ent.t) (c r : Z) :
  inScan (if negb (Qeq_bool (Ent.vx e) 0) then Ent.set_vx 0 e else e) c r
  <-> inScan e c r.
Proof. destruct (Qeq_bool (Ent.vx e) 0); simpl; tauto. Qed.

Lemma moveEntityX_free (level : list string) (ent : Ent.t) (d : Q) (n : Z) :
  firstSolid level ent = None ->
  Ent.w ent == inject_Z n ->
  - TILE <= d <= TILE ->
  firstSolid level (moveEntityX level ent d) = None.
Proof.
  intros Hfree Hw [Hd1 Hd2]. rewrite firstSolid_None_iff in Hfree.
  unfold moveEntityX.
  destruct (firstSolid level (Ent.set_x (Ent.x ent + d) ent)) as [[c r]|] eqn:E;
    [| exact E].
  apply firstSolid_Some in E. destruct E as [Hin Hs].
  apply inScan_span in Hin. simpl in Hin. destruct Hin as [Hc Hr].
  assert (Hnot : ~ span (Ent.x ent) (Ent.w ent) c).
  { intros Hc'. rewrite (Hfree c r) in Hs; [discriminate |].
    apply inScan_span. split; assumption. }
  apply firstSolid_None_iff. intros k r' Hk.
  apply (proj1 (inScan_vx_cleared _ _ _)) in Hk. apply Hfree. apply inScan_span.
  destruct (Q_dec 0 d) as [[Hpos | Hneg] | Hz].
  - rewrite (Qltb_pos_neg d Hpos) in Hk.
    apply inScan_span in Hk. simpl in Hk. destruct Hk as [Hk Hr'].
    split; [| exact Hr'].
    exact (span_clamp_right _ _ d n c k Hw Hpos Hd2 Hc Hnot Hk).
  - destruct (Qltb_neg_pos d Hneg) as [E1 E2]. rewrite E1, E2 in Hk.
    apply inScan_span in Hk. simpl in Hk. destruct Hk as [Hk Hr'].
    split; [| exact Hr'].
    exact (span_clamp_left _ _ d c k Hneg Hd1 Hc Hnot Hk).
  - exfalso. apply Hnot. apply (span_zero _ _ d); [symmetry; exact Hz | exact Hc].
Qed.

Lemma moveEntityY_free (level : list string) (ent : Ent.t) (d : Q) (m : Z) :
  firstSolid level ent = None ->
  Ent.h ent == inject_Z m ->
  - TILE <= d <= TILE ->
  firstSolid level (moveEntityY level ent d) = None.
Proof.
  intros Hfree Hh [Hd1 Hd2]. rewrite firstSolid_None_iff in Hfree.
  unfold moveEntityY.
  destruct (firstSolid level (Ent.set_y (Ent.y ent + d) ent)) as [[c r]|] eqn:E.
  - apply firstSolid_Some in E. destruct E as [Hin Hs].
    apply inScan_span in Hin. simpl in Hin. destruct Hin as [Hc Hr].
    assert (Hnot : ~ span (Ent.y ent) (Ent.h ent) r).
    { intros Hr'. rewrite (Hfree c r) in Hs; [discriminate |].
      apply inScan_span. split; assumption. }
    apply firstSolid_None_iff. intros k r' Hk.
    apply Hfree. apply inScan_span.
    destruct (Q_dec 0 d) as [[Hpos | Hneg] | Hz].
    + rewrite (Qltb_pos_neg d Hpos) in Hk.
      apply inScan_span in Hk. simpl in Hk. destruct Hk as [Hk Hr'].
      split; [exact Hk |].
      exact (span_clamp_right _ _ d m r r' Hh Hpos Hd2 Hr Hnot Hr').
    + destruct (Qltb_neg_pos d Hneg) as [E1 E2]. rewrite E1, E2 in Hk.
      apply inScan_span in Hk. simpl in Hk. destruct Hk as [Hk Hr'].
      split; [exact Hk |].
      exact (span_clamp_left _ _ d r r' Hneg Hd1 Hr Hnot Hr').
    + exfalso. apply Hnot. apply (span_zero _ _ d); [symmetry; exact Hz | exact Hr].
  - apply firstSolid_None_iff. intros k r' Hk.
    apply (firstSolid_None _ _ E). exact Hk.
Qed.

Lemma rectsIntersect_cell (e : Ent.t) (c r : Z) :
  rectsIntersect (entBox e) (cellBox c r) = true ->
  (inject_Z c * TILE < Ent.x e + Ent.w e /\ Ent.x e < inject_Z c * TILE + TILE)
  /\ (inject_Z r * TILE < Ent.y e + Ent.h e /\ Ent.y e < inject_Z r * TILE + TILE).
Proof.
  unfold rectsIntersect, entBox, cellBox. cbn [rect_x rect_y rect_w rect_h].
  rewrite negb_true_iff, !orb_false_iff, !Qle_bool_false. tauto.
Qed.

(** The scan looks at the far edges less 1, so an entity whose scan meets no
    solid cell can reach into a solid tile only over the tile's left or top
    edge, and by less than 1. *)
Lemma scan_free_depth (level : list string) (e : Ent.t) (c r : Z) :
  firstSolid level e = None ->
  isSolidAtColRow level c r = true ->
  rectsIntersect (entBox e) (cellBox c r) = true ->
  Ent.x e + Ent.w e < inject_Z c * TILE + 1
  \/ Ent.y e + Ent.h e < inject_Z r * TILE + 1.
Proof.
  intros Hfree Hs Hmeet.
  apply rectsIntersect_cell in Hmeet. destruct Hmeet as [[Hx1 Hx2] [Hy1 Hy2]].
  destruct (Qlt_le_dec (Ent.x e + Ent.w e - 1) (inject_Z c * TILE)) as [H | Hc];
    [left; lra |].
  destruct (Qlt_le_dec (Ent.y e + Ent.h e - 1) (inject_Z r * TILE)) as [H | Hr];
    [right; lra |].
  exfalso. rewrite (firstSolid_None level e Hfree c r) in Hs; [discriminate |].
  apply inScan_span. unfold span. repeat split; assumption.
Qed.

(** X6.  An entity of whole-number width and height whose scan meets no
    solid cell comes out of either resolver, called with a delta of at most
    one tile in size, with a scan that still meets no solid cell.  What the
    scan cannot see is the last 1 of the box at its right and bottom edges:
    the box may then lie over a solid tile, but only over the tile's left or
    top edge and by less than 1. *)
Theorem small_step_stays_free (level : list string) (ent : Ent.t) (d : Q) :
  firstSolid level ent = None ->
  (exists n, Ent.w ent == inject_Z n) ->
  (exists m, Ent.h ent == inject_Z m) ->
  - TILE <= d <= TILE ->
  (firstSolid level (moveEntityX level ent d) = None
   /\ firstSolid level (moveEntityY level ent d) = None)
  /\ (forall ent',
        ent' = moveEntityX level ent d \/ ent' = moveEntityY level ent d ->
        forall c r,
          isSolidAtColRow level c r = true ->
          rectsIntersect (entBox ent') (cellBox c r) = true ->
          Ent.x ent' + Ent.w ent' < inject_Z c * TILE + 1
          \/ Ent.y ent' + Ent.h ent' < inject_Z r * TILE + 1).
Proof.
  intros Hfree [n Hn] [m Hm] Hd.
  pose proof (moveEntityX_free level ent d n Hfree Hn Hd) as HX.
  pose proof (moveEntityY_free level ent d m Hfree Hm Hd) as HY.
  split; [split; assumption |].
  intros ent' [-> | ->] c r Hs Hmeet.
  - exact (scan_free_depth level _ c r HX Hs Hmeet).
  - exact (scan_free_depth level _ c r HY Hs Hmeet).
Qed.

(** A wall met while walking right, a floor met while falling, and a fall of
    2/3 onto a floor, which the scan does not see. *)
Lemma small_step_stays_free_witness :
  let lvl := ["  #"%string; "###"%string] in
  let ent := Ent.mk 50 0 36 42 280 600 false 1 true in
  let low := Ent.mk 50 6 36 42 0 0 true 1 true in
  (firstSolid lvl (moveEntityX lvl ent 12) = None
   /\ firstSolid lvl (moveEntityY lvl ent 24) = None)
  /\ (rectsIntersect (entBox (moveEntityY lvl low (2 # 3))) (cellBox 1 1) = true
      /\ (Ent.x (moveEntityY lvl low (2 # 3)) + Ent.w (moveEntityY lvl low (2 # 3))
          < inject_Z 1 * TILE + 1
          \/ Ent.y (moveEntityY lvl low (2 # 3)) + Ent.h (moveEntityY lvl low (2 # 3))
             < inject_Z 1 * TILE + 1)).
Proof.
  intros lvl ent low.
  assert (Hw : forall e, Ent.w e = 36 -> exists n, Ent.w e == inject_Z n).
  { intros e ->. exists 36%Z. reflexivity. }
  assert (Hh : forall e, Ent.h e = 42 -> exists m, Ent.h e == inject_Z m).
  { intros e ->. exists 42%Z. reflexivity. }
  split; [split |].
  - apply (proj1 (small_step_stays_free lvl ent 12 eq_refl (Hw ent eq_refl)
                    (Hh ent eq_refl) ltac:(split; discriminate))).
  - apply (proj1 (small_step_stays_free lvl ent 24 eq_refl (Hw ent eq_refl)
                    (Hh ent eq_refl) ltac:(split; discriminate))).
  - split; [reflexivity |].
    apply (proj2 (small_step_stays_free lvl low (2 # 3) eq_refl (Hw low eq_refl)
                    (Hh low eq_refl) ltac:(split; discriminate))
             (moveEntityY lvl low (2 # 3)) (or_intror eq_refl) 1%Z 1%Z);
      reflexivity.
Defined.

(** ** Standing on the ground *)

Lemma floorDiv_ext (u v : Q) : u == v -> floorDiv u TILE = floorDiv v TILE.
Proof. intros H. unfold floorDiv. rewrite H. reflexivity. Qed.

(** The scan depends on the box only, and only up to [==]. *)
Lemma firstSolid_ext (level : list string) (e e' : Ent.t) :
  Ent.x e == Ent.x e' -> Ent.y e == Ent.y e' ->
  Ent.w e == Ent.w e' -> Ent.h e == Ent.h e' ->
  firstSolid level e = firstSolid level e'.
Proof.
  intros Hx Hy Hw Hh. unfold firstSolid.
  rewrite (floorDiv_ext (Ent.x e) (Ent.x e') Hx).
  rewrite (floorDiv_ext (Ent.y e) (Ent.y e') Hy).
  rewrite (floorDiv_ext (Ent.x e + Ent.w e - 1) (Ent.x e' + Ent.w e' - 1))
    by (rewrite Hx, Hw; reflexivity).
  rewrite (floorDiv_ext (Ent.y e + Ent.h e - 1) (Ent.y e' + Ent.h e' - 1))
    by (rewrite Hy, Hh; reflexivity).
  reflexivity.
Qed.

Lemma tile_Zlt (a b : Z) :
  (a < b)%Z -> inject_Z a * TILE + TILE <= inject_Z b * TILE.
Proof.
  intros H. apply tile_lt_step. apply Qmult_lt_r; [reflexivity |].
  rewrite <- Zlt_Qlt. exact H.
Qed.

(** An entity at rest on a tile and pushed down by 1 to 48 is put back. *)
Lemma moveEntityY_lands (level : list string) (e : Ent.t) (dy : Q) (c0 r0 : Z) :
  firstSolid level e = None ->
  Ent.y e + Ent.h e == inject_Z r0 * TILE ->
  span (Ent.x e) (Ent.w e) c0 ->
  isSolidAtColRow level c0 r0 = true ->
  0 < Ent.h e ->
  1 <= dy <= TILE ->
  let e' := moveEntityY level e dy in
  Ent.x e' = Ent.x e /\ Ent.y e' == Ent.y e
  /\ Ent.vy e' == 0 /\ Ent.onGround e' = true.
Proof.
  intros Hfree Hrest Hc0 Hs0 Hh [Hd1 Hd2] e'. subst e'.
  rewrite firstSolid_None_iff in Hfree.
  unfold moveEntityY.
  assert (Hpos : Qltb 0 dy = true) by (apply Qltb_lt; lra).
  rewrite Hpos.
  destruct (firstSolid level (Ent.set_y (Ent.y e + dy) e)) as [[c r]|] eqn:E.
  - apply firstSolid_Some in E. destruct E as [Hin Hs].
    apply inScan_span in Hin. simpl in Hin. destruct Hin as [Hc [Hr1 Hr2]].
    assert (Er : r = r0).
    { destruct (Z.lt_trichotomy r r0) as [Hlt | [Heq | Hgt]]; [| exact Heq |].
      - apply tile_Zlt in Hlt. exfalso.
        rewrite (Hfree c r) in Hs; [discriminate |].
        apply inScan_span. split; [exact Hc |].
        unfold span, TILE in *. split; lra.
      - apply tile_Zlt in Hgt. exfalso. unfold TILE in *. lra. }
    subst r. simpl. split; [reflexivity |]. split; [lra |].
    split; reflexivity.
  - exfalso. pose proof (firstSolid_None _ _ E c0 r0) as Hn.
    rewrite Hn in Hs0; [discriminate |].
    apply inScan_span. simpl. split; [exact Hc0 |].
    unfold span, TILE in *. split; lra.
Qed.

(** The same entity pushed down by less than 1 is left where the push
    took it, and flagged as off the ground. *)
Lemma moveEntityY_sinks (level : list string) (e : Ent.t) (dy : Q) (r0 : Z) :
  firstSolid level e = None ->
  Ent.y e + Ent.h e == inject_Z r0 * TILE ->
  0 <= dy < 1 ->
  moveEntityY level e dy = Ent.set_onGround false (Ent.set_y (Ent.y e + dy) e).
Proof.
  intros Hfree Hrest [Hd1 Hd2].
  rewrite firstSolid_None_iff in Hfree.
  unfold moveEntityY.
  destruct (firstSolid level (Ent.set_y (Ent.y e + dy) e)) as [[c r]|] eqn:E;
    [| reflexivity].
  exfalso. apply firstSolid_Some in E. destruct E as [Hin Hs].
  apply inScan_span in Hin. simpl in Hin. destruct Hin as [Hc [Hr1 Hr2]].
  rewrite (Hfree c r) in Hs; [discriminate |].
  apply inScan_span. split; [exact Hc |].
  assert (Hlt : (r < r0)%Z).
  { rewrite Zlt_Qlt. apply Qmult_lt_r with TILE; [reflexivity |].
    unfold TILE in *. lra. }
  apply tile_Zlt in Hlt. unfold span, TILE in *. split; lra.
Qed.

Lemma applyInput_idle (p : Ent.t) :
  applyInput idle p = Ent.set_vx (0 * MOVE_SPEED) p.
Proof. reflexivity. Qed.

(** What [movePlayer] hands to the vertical resolver when no key is held
    and nothing is in the way sideways. *)
Lemma movePlayer_idle (level : list string) (dt : Q) (p : Ent.t) :
  firstSolid level p = None ->
  let q := Ent.set_x (Ent.x p + 0 * MOVE_SPEED * dt)
             (Ent.set_vy (Ent.vy p + GRAV * dt)
                (Ent.set_vx (0 * MOVE_SPEED) p)) in
  movePlayer level idle dt p = moveEntityY level q (Ent.vy q * dt)
  /\ firstSolid level q = None.
Proof.
  intros Hfree q.
  assert (Hq : firstSolid level q = None).
  { rewrite <- Hfree. apply firstSolid_ext; simpl; try reflexivity. ring. }
  split; [| exact Hq].
  unfold movePlayer. rewrite applyInput_idle. unfold moveEntityX.
  simpl Ent.vx. simpl Ent.x. fold q.
  change (Ent.set_x (Ent.x p + 0 * MOVE_SPEED * dt)
            (Ent.set_vy (Ent.vy (Ent.set_vx (0 * MOVE_SPEED) p) + GRAV * dt)
               (Ent.set_vx (0 * MOVE_SPEED) p))) with q.
  rewrite Hq. reflexivity.
Qed.

(** X7.  A player at rest ([vy = 0]) on a solid tile, clear of every solid
    cell of its scan, with no key held: when the frame time makes gravity
    push it down by at least 1 and at most one tile ([1 <= GRAV * dt * dt <=
    TILE]), the step leaves it where it is, at rest and on the ground. *)
Theorem standing_is_stable (level : list string) (dt : Q) (p : Ent.t)
  (c0 r0 : Z) :
  Ent.vy p == 0 ->
  firstSolid level p = None ->
  Ent.y p + Ent.h p == inject_Z r0 * TILE ->
  span (Ent.x p) (Ent.w p) c0 ->
  isSolidAtColRow level c0 r0 = true ->
  0 < Ent.h p ->
  1 <= GRAV * dt * dt <= TILE ->
  let p' := movePlayer level idle dt p in
  Ent.x p' == Ent.x p /\ Ent.y p' == Ent.y p
  /\ Ent.vx p' == 0 /\ Ent.vy p' == 0
  /\ Ent.onGround p' = true.
Proof.
  intros Hvy Hfree Hrest Hc0 Hs0 Hh Hdt p'. subst p'.
  destruct (movePlayer_idle level dt p Hfree) as [E Hq]. rewrite E. clear E.
  set (q := Ent.set_x (Ent.x p + 0 * MOVE_SPEED * dt)
              (Ent.set_vy (Ent.vy p + GRAV * dt)
                 (Ent.set_vx (0 * MOVE_SPEED) p))) in *.
  assert (Hdy : Ent.vy q * dt == GRAV * dt * dt).
  { simpl. rewrite Hvy. ring. }
  assert (Hc0' : span (Ent.x q) (Ent.w q) c0).
  { simpl. unfold span in *. destruct Hc0. split; lra. }
  assert (Hd : 1 <= Ent.vy q * dt <= TILE).
  { rewrite Hdy. exact Hdt. }
  destruct (moveEntityY_lands level q (Ent.vy q * dt) c0 r0 Hq Hrest Hc0' Hs0 Hh Hd)
    as (Hx & Hy & Hv & Hg).
  pose proof (moveEntityY_fields level q (Ent.vy q * dt)) as (_ & _ & _ & Hvx & _).
  split; [rewrite Hx; simpl; ring |].
  split; [exact Hy |]. split; [rewrite Hvx; simpl; ring |].
  split; [exact Hv | exact Hg].
Qed.

Lemma standing_is_stable_witness :
  let p := Ent.mk 6 54 36 42 0 0 true 1 true in
  let p' := movePlayer twoEnemies idle (1 # 25) p in
  Ent.x p' == 6 /\ Ent.y p' == 54 /\ Ent.vx p' == 0 /\ Ent.vy p' == 0
  /\ Ent.onGround p' = true.
Proof.
  intros p.
  apply (standing_is_stable twoEnemies (1 # 25) p 0 2).
  - reflexivity.
  - reflexivity.
  - reflexivity.
  - split; [reflexivity | discriminate].
  - reflexivity.
  - reflexivity.
  - split; discriminate.
Defined.

(** X8.  The same player when the frame is so short that gravity pushes it
    down by less than 1 ([GRAV * dt * dt < 1], which includes a frame time of
    0 and one of 1/60 s): the step leaves it that much lower, moving down,
    and flagged as off the ground, so that a jump key held in the next frame
    does nothing. *)
Theorem short_frame_unsettles (level : list string) (dt : Q) (p : Ent.t)
  (r0 : Z) :
  Ent.vy p == 0 ->
  firstSolid level p = None ->
  Ent.y p + Ent.h p == inject_Z r0 * TILE ->
  0 <= dt ->
  GRAV * dt * dt < 1 ->
  let p' := movePlayer level idle dt p in
  Ent.x p' == Ent.x p
  /\ Ent.y p' == Ent.y p + GRAV * dt * dt
  /\ Ent.vy p' == GRAV * dt
  /\ Ent.onGround p' = false
  /\ Ent.vy (applyInput pressUp p') = Ent.vy p'.
Proof.
  intros Hvy Hfree Hrest Hdt0 Hdt p'. subst p'.
  destruct (movePlayer_idle level dt p Hfree) as [E Hq]. rewrite E. clear E.
  set (q := Ent.set_x (Ent.x p + 0 * MOVE_SPEED * dt)
              (Ent.set_vy (Ent.vy p + GRAV * dt)
                 (Ent.set_vx (0 * MOVE_SPEED) p))) in *.
  assert (Hdy : Ent.vy q * dt == GRAV * dt * dt).
  { simpl. rewrite Hvy. ring. }
  assert (Hd : 0 <= Ent.vy q * dt < 1).
  { rewrite Hdy. split; [| exact Hdt].
    unfold GRAV. apply Qmult_le_0_compat; [| exact Hdt0].
    apply Qmult_le_0_compat; [discriminate | exact Hdt0]. }
  rewrite (moveEntityY_sinks level q (Ent.vy q * dt) r0 Hq Hrest Hd).
  simpl. split; [ring |]. split; [rewrite Hvy; ring |].
  split; [rewrite Hvy; ring |]. split; reflexivity.
Qed.

Lemma short_frame_unsettles_witness :
  let p := Ent.mk 6 54 36 42 0 0 true 1 true in
  let p' := movePlayer twoEnemies idle (1 # 60) p in
  Ent.x p' == 6
  /\ Ent.y p' == 54 + GRAV * (1 # 60) * (1 # 60)
  /\ Ent.vy p' == GRAV * (1 # 60)
  /\ Ent.onGround p' = false
  /\ Ent.vy (applyInput pressUp p') = Ent.vy p'.
Proof.
  intros p.
  apply (short_frame_unsettles twoEnemies (1 # 60) p 2).
  - reflexivity.
  - reflexivity.
  - reflexivity.
  - discriminate.
  - reflexivity.
Defined.

(** ** Parsing the level *)

Lemma fold_left_flat_map {A B C : Type} (f : A -> C -> A) (h : B -> list C)
  (l : list B) (a : A) :
  fold_left f (flat_map h l) a = fold_left (fun a b => fold_left f (h b) a) l a.
Proof.
  revert a. induction l as [|b l IH]; intros a; simpl; [reflexivity |].
  rewrite fold_left_app. apply IH.
Qed.

Lemma fold_left_map_arg {A B C : Type} (f : A -> C -> A) (k : B -> C)
  (l : list B) (a : A) :
  fold_left f (map k l) a = fold_left (fun a b => f a (k b)) l a.
Proof.
  revert a. induction l as [|b l IH]; intros a; simpl; [reflexivity | apply IH].
Qed.

Lemma fold_left_pointwise {A B : Type} (f f' : A -> B -> A) (l : list B) (a : A) :
  (forall a b, f a b = f' a b) -> fold_left f l a = fold_left f' l a.
Proof.
  intros H. revert a. induction l as [|b l IH]; intros a; simpl; [reflexivity |].
  rewrite H. apply IH.
Qed.

Lemma parseLevel_cells (level : list string) (g : Game) :
  parseLevel level g = fold_left (parseAt level) (cells level) g.
Proof.
  unfold parseLevel, cells. rewrite fold_left_flat_map.
  apply fold_left_pointwise. intros a r.
  unfold parseRow. rewrite fold_left_map_arg. reflexivity.
Qed.

Lemma parseAt_fields (level : list string) (g : Game) (rc : nat * nat) :
  tiles (parseAt level g rc)
  = tiles g ++ (if Ascii.eqb (charOf level rc) "#" then [tileOf rc] else [])
  /\ coins (parseAt level g rc)
     = coins g ++ (if Ascii.eqb (charOf level rc) "C" then [coinOf rc] else [])
  /\ enemies (parseAt level g rc)
     = enemies g ++ (if Ascii.eqb (charOf level rc) "E" then [enemyOf rc] else [])
  /\ player (parseAt level g rc)
     = (if Ascii.eqb (charOf level rc) "P" then placeAt rc (player g) else player g)
  /\ scoreRef (parseAt level g rc) = scoreRef g
  /\ livesRef (parseAt level g rc) = livesRef g.
Proof.
  unfold parseAt, parseCell, charOf.
  destruct (Ascii.eqb _ "#"), (Ascii.eqb _ "C"), (Ascii.eqb _ "E"),
           (Ascii.eqb _ "P"); simpl; rewrite ?app_nil_r; repeat split.
Qed.

Lemma filter_cons_if {A : Type} (f : A -> bool) (a : A) (l : list A) :
  filter f (a :: l) = (if f a then [a] else []) ++ filter f l.
Proof. simpl. destruct (f a); reflexivity. Qed.

Lemma map_if_single {A B : Type} (k : A -> B) (b : bool) (a : A) :
  map k (if b then [a] else []) = if b then [k a] else [].
Proof. destruct b; reflexivity. Qed.

Lemma fold_parse_fields (level : list string) (cs : list (nat * nat)) (g : Game) :
  let g' := fold_left (parseAt level) cs g in
  tiles g'
  = tiles g ++ map tileOf (filter (fun rc => Ascii.eqb (charOf level rc) "#") cs)
  /\ coins g'
     = coins g ++ map coinOf (filter (fun rc => Ascii.eqb (charOf level rc) "C") cs)
  /\ enemies g'
     = enemies g
       ++ map enemyOf (filter (fun rc => Ascii.eqb (charOf level rc) "E") cs)
  /\ player g'
     = fold_left (fun p rc =>
                    if Ascii.eqb (charOf level rc) "P" then placeAt rc p else p)
                 cs (player g)
  /\ scoreRef g' = scoreRef g
  /\ livesRef g' = livesRef g.
Proof.
  revert g. induction cs as [|rc cs IH]; intros g.
  - simpl. rewrite !app_nil_r. repeat split.
  - simpl fold_left. specialize (IH (parseAt level g rc)). cbv zeta in IH.
    destruct IH as (Ht & Hc & He & Hp & Hs & Hl).
    destruct (parseAt_fields level g rc) as (Ft & Fc & Fe & Fp & Fs & Fl).
    cbv zeta.
    rewrite Ht, Hc, He, Hp, Hs, Hl, Ft, Fc, Fe, Fp, Fs, Fl.
    rewrite !filter_cons_if, !map_app, !map_if_single, <- !app_assoc.
    repeat split.
Qed.

Lemma placeAt_twice (rc rc' : nat * nat) (p : Ent.t) :
  placeAt rc (placeAt rc' p) = placeAt rc p.
Proof. reflexivity. Qed.

Lemma fold_place_last (level : list string) (cs : list (nat * nat)) (p : Ent.t) :
  fold_left (fun p rc =>
               if Ascii.eqb (charOf level rc) "P" then placeAt rc p else p) cs p
  = placeLast (filter (fun rc => Ascii.eqb (charOf level rc) "P") cs) p.
Proof.
  induction cs as [|rc cs IH] using rev_ind; [reflexivity |].
  rewrite fold_left_app, filter_app. simpl fold_left. rewrite IH.
  unfold placeLast. simpl filter.
  destruct (Ascii.eqb (charOf level rc) "P").
  - rewrite rev_app_distr. simpl.
    destruct (rev (filter _ cs)); [reflexivity | apply placeAt_twice].
  - rewrite app_nil_r. reflexivity.
Qed.

Lemma mount_fields (level : list string) :
  tiles (mount level) = map tileOf (marks level "#")
  /\ coins (mount level) = map coinOf (marks level "C")
  /\ enemies (mount level) = map enemyOf (marks level "E")
  /\ player (mount level) = placeLast (marks level "P") initialPlayer
  /\ scoreRef (mount level) = 0%Z
  /\ livesRef (mount level) = 3%Z.
Proof.
  unfold mount. rewrite parseLevel_cells.
  destruct (fold_parse_fields level (cells level)
              (mkGame [] [] [] initialPlayer 0%Z 3%Z))
    as (Ht & Hc & He & Hp & Hs & Hl).
  rewrite Ht, Hc, He, Hp, Hs, Hl. simpl. rewrite fold_place_last.
  repeat split.
Qed.

(** X9.  Building the world visits the cells row by row and in each row left
    to right.  The tiles, the coins and the enemies it makes are, in that
    order, one per '#', 'C' and 'E' cell, each with the position and the
    fields of its object literal.  The player is the initial object, moved to
    the last P cell in that order when there is one.  Score and lives start
    at 0 and 3. *)
Theorem mount_by_cells (level : list string) :
  tiles (mount level) = map tileOf (marks level "#")
  /\ coins (mount level) = map coinOf (marks level "C")
  /\ enemies (mount level) = map enemyOf (marks level "E")
  /\ player (mount level) = placeLast (marks level "P") initialPlayer
  /\ scoreRef (mount level) = 0%Z
  /\ livesRef (mount level) = 3%Z.
Proof. exact (mount_fields level). Qed.

Lemma in_cells (level : list string) (r c : nat) :
  In (r, c) (cells level) <-> (r < List.length level)%nat /\ (c < colCount level)%nat.
Proof.
  unfold cells. rewrite in_flat_map. split.
  - intros [r' [Hr Hc]]. apply in_map_iff in Hc. destruct Hc as [c' [[= <- <-] Hc]].
    apply in_seq in Hr. apply in_seq in Hc. lia.
  - intros [Hr Hc]. exists r. split; [apply in_seq; lia |].
    apply in_map_iff. exists c. split; [reflexivity | apply in_seq; lia].
Qed.

Lemma cols_nonneg (level : list string) (n : Z) :
  cols level = Some n -> (0 <= n)%Z.
Proof.
  destruct level as [|r0 rest]; [discriminate |]. simpl. intros [= <-].
  pose proof (fold_max_ge (map (fun r => Z.of_nat (String.length r)) rest)
                (Z.of_nat (String.length r0))). lia.
Qed.

Lemma geCols_nat (level : list string) (c : nat) :
  level <> [] ->
  geCols level (Z.of_nat c) = negb (c <? colCount level)%nat.
Proof.
  intros Hne. unfold geCols, colCount.
  destruct (cols level) as [n|] eqn:E.
  - pose proof (cols_nonneg level n E) as Hn.
    destruct (Nat.ltb_spec c (Z.to_nat n)); simpl.
    + apply Z.leb_gt. lia.
    + apply Z.leb_le. lia.
  - destruct level; [congruence | discriminate].
Qed.

Lemma isSolid_nat (level : list string) (r c : nat) :
  isSolidAtColRow level (Z.of_nat c) (Z.of_nat r) = true <->
  In (r, c) (cells level) /\ charOf level (r, c) = "#"%char.
Proof.
  rewrite in_cells. unfold isSolidAtColRow, getTileAt, charAt, charOf, rows.
  simpl fst. simpl snd. rewrite !Nat2Z.id.
  destruct level as [|r0 rest] eqn:El.
  - change (geCols [] (Z.of_nat c)) with true. rewrite orb_true_r.
    split; [discriminate | intros [[H _] _]; simpl in H; lia].
  - rewrite <- El. assert (Hne : level <> []) by (rewrite El; discriminate).
    rewrite (geCols_nat level c Hne).
    replace (Z.of_nat r <? 0)%Z with false by (symmetry; apply Z.ltb_ge; lia).
    replace (Z.of_nat c <? 0)%Z with false by (symmetry; apply Z.ltb_ge; lia).
    simpl orb. rewrite orb_false_r.
    destruct (Z.leb_spec (Z.of_nat (List.length level)) (Z.of_nat r)) as [Hr | Hr];
      simpl.
    + split; [discriminate | intros [[H _] _]; lia].
    + destruct (Nat.ltb_spec c (colCount level)) as [Hc | Hc]; simpl.
      * rewrite Ascii.eqb_eq. split; [intros H; repeat split; try lia; exact H | tauto].
      * split; [discriminate | intros [[_ H] _]; lia].
Qed.

(** X10.  The tiles that are drawn are the cells that collide: a cell is
    solid for [isSolidAtColRow] exactly when the world holds a tile with that
    column and row, and every tile is drawn at the corner of its cell. *)
Theorem tiles_match_solid (level : list string) :
  (forall col row,
     isSolidAtColRow level col row = true <->
     exists t, In t (tiles (mount level))
               /\ Z.of_nat (Tile.c t) = col /\ Z.of_nat (Tile.r t) = row)
  /\ (forall t, In t (tiles (mount level)) ->
        Tile.x t = rect_x (cellBox (Z.of_nat (Tile.c t)) (Z.of_nat (Tile.r t)))
        /\ Tile.y t = rect_y (cellBox (Z.of_nat (Tile.c t)) (Z.of_nat (Tile.r t)))).
Proof.
  destruct (mount_fields level) as (Ht & _). rewrite Ht. split.
  - intros col row. split.
    + intros Hs. pose proof (isSolid_true_inside _ _ _ Hs) as (Hr & Hc & _).
      rewrite <- (Z2Nat.id col), <- (Z2Nat.id row) in Hs by lia.
      apply isSolid_nat in Hs. destruct Hs as [Hin Hch].
      exists (tileOf (Z.to_nat row, Z.to_nat col)). split.
      * apply in_map. unfold marks. apply filter_In. split; [exact Hin |].
        rewrite Hch. reflexivity.
      * simpl. split; apply Z2Nat.id; lia.
    + intros [t [Hin [<- <-]]]. apply in_map_iff in Hin.
      destruct Hin as [[r c] [<- Hin]]. unfold marks in Hin.
      apply filter_In in Hin. destruct Hin as [Hin Hch]. simpl.
      apply isSolid_nat. split; [exact Hin |]. apply Ascii.eqb_eq. exact Hch.
  - intros t Hin. apply in_map_iff in Hin. destruct Hin as [[r c] [<- _]].
    split; reflexivity.
Qed.

Lemma tiles_match_solid_witness :
  exists t, In t (tiles (mount ["# #"%string]))
            /\ Z.of_nat (Tile.c t) = 2%Z /\ Z.of_nat (Tile.r t) = 0%Z.
Proof.
  apply (proj1 (proj1 (tiles_match_solid ["# #"%string]) 2%Z 0%Z)). reflexivity.
Defined.

Lemma placeLast_fields (ps : list (nat * nat)) (p : Ent.t) :
  Ent.w (placeLast ps p) = Ent.w p /\ Ent.h (placeLast ps p) = Ent.h p
  /\ Ent.vx (placeLast ps p) = Ent.vx p /\ Ent.vy (placeLast ps p) = Ent.vy p
  /\ Ent.onGround (placeLast ps p) = Ent.onGround p
  /\ Ent.facing (placeLast ps p) = Ent.facing p
  /\ Ent.alive (placeLast ps p) = Ent.alive p.
Proof. unfold placeLast. destruct (rev ps); repeat split. Qed.

Lemma enemyOf_inside (level : list string) (rc : nat * nat) :
  In rc (cells level) ->
  0 <= Enemy.x (enemyOf rc) /\ 0 < Enemy.y (enemyOf rc)
  /\ Enemy.y (enemyOf rc) + Enemy.h (enemyOf rc) < worldH level.
Proof.
  destruct rc as [r c]. intros Hin. apply in_cells in Hin. destruct Hin as [Hr _].
  unfold enemyOf, cellX, cellY, worldH, rows. simpl.
  assert (H0c : 0 <= inject_Z (Z.of_nat c)).
  { change 0 with (inject_Z 0). rewrite <- Zle_Qle. lia. }
  assert (H0r : 0 <= inject_Z (Z.of_nat r)).
  { change 0 with (inject_Z 0). rewrite <- Zle_Qle. lia. }
  assert (Hlt : (Z.of_nat r < Z.of_nat (List.length level))%Z) by lia.
  apply tile_Zlt in Hlt. unfold TILE in *.
  split; [| split]; lra.
Qed.

(** X11.  In a world just built the player is alive, 36 by 42, at rest, in
    the air and facing right; no coin is picked; every enemy is alive, 36 by
    36, walks right at speed 60 and lies inside the world, its feet 4 above
    the bottom of its row. *)
Theorem mount_fresh (level : list string) :
  let g := mount level in
  (Ent.w (player g) = 36 /\ Ent.h (player g) = 42
   /\ Ent.vx (player g) = 0 /\ Ent.vy (player g) = 0
   /\ Ent.onGround (player g) = false /\ Ent.facing (player g) = 1
   /\ Ent.alive (player g) = true)
  /\ (forall coin, In coin (coins g) -> Coin.picked coin = false)
  /\ (forall en, In en (enemies g) ->
        (Enemy.alive en = true /\ Enemy.dir en = 1 /\ Enemy.speed en = 60
         /\ Enemy.w en = 36 /\ Enemy.h en = 36)
        /\ (0 <= Enemy.x en /\ 0 < Enemy.y en
            /\ Enemy.y en + Enemy.h en < worldH level)
        /\ exists r, (r < List.length level)%nat
                     /\ Enemy.y en + Enemy.h en + 4
                        == inject_Z (Z.of_nat r) * TILE + TILE).
Proof.
  destruct (mount_fields level) as (_ & Hc & He & Hp & _).
  cbv zeta. rewrite Hc, He, Hp. split; [| split].
  - pose proof (placeLast_fields (marks level "P") initialPlayer)
      as (-> & -> & -> & -> & -> & -> & ->).
    repeat split.
  - intros coin Hin. apply in_map_iff in Hin. destruct Hin as [rc [<- _]].
    reflexivity.
  - intros en Hin. apply in_map_iff in Hin. destruct Hin as [rc [<- Hin]].
    unfold marks in Hin. apply filter_In in Hin. destruct Hin as [Hin _].
    split; [repeat split |]. split; [exact (enemyOf_inside level rc Hin) |].
    destruct rc as [r c]. exists r. apply in_cells in Hin.
    split; [tauto |]. unfold enemyOf, cellY, TILE. simpl. ring.
Qed.

Lemma mount_fresh_witness :
  let en := Enemy.mk (inject_Z 4 * TILE) (inject_Z 0 * TILE + TILE - 40)
                     36 36 60 1 true in
  Enemy.alive en = true
  /\ Enemy.y en + Enemy.h en < worldH twoEnemies.
Proof.
  intros en.
  assert (Hin : In en (enemies (mount twoEnemies))).
  { vm_compute. left. reflexivity. }
  destruct (proj2 (proj2 (mount_fresh twoEnemies)) en Hin)
    as ((Ha & _) & (_ & _ & Hb) & _).
  split; [exact Ha | exact Hb].
Defined.

(** X12.  When the effect runs again (a change of the pause flag), the score
    and the lives are kept and everything else is as in a world just built:
    picked coins are back, dead enemies and a dead player are alive again,
    all at their first places. *)
Theorem remount_keeps_counters (level : list string) (g : Game) :
  let g' := remount level g in
  scoreRef g' = scoreRef g /\ livesRef g' = livesRef g
  /\ tiles g' = tiles (mount level) /\ coins g' = coins (mount level)
  /\ enemies g' = enemies (mount level) /\ player g' = player (mount level).
Proof.
  unfold remount, mount. rewrite !parseLevel_cells.
  destruct (fold_parse_fields level (cells level)
              (mkGame [] [] [] initialPlayer (scoreRef g) (livesRef g)))
    as (Ht & Hc & He & Hp & Hs & Hl).
  destruct (fold_parse_fields level (cells level)
              (mkGame [] [] [] initialPlayer 0%Z 3%Z))
    as (Ht' & Hc' & He' & Hp' & _).
  cbv zeta. rewrite Ht, Hc, He, Hp, Hs, Hl, Ht', Hc', He', Hp'.
  repeat split.
Qed.

(** ** What a step keeps *)

Lemma Forall2_same {A : Type} (R : A -> A -> Prop) (l : list A) :
  (forall a, R a a) -> Forall2 R l l.
Proof. intros H. induction l; constructor; auto. Qed.

Lemma Forall2_compose {A : Type} (R : A -> A -> Prop) (l1 l2 l3 : list A) :
  (forall a b c, R a b -> R b c -> R a c) ->
  Forall2 R l1 l2 -> Forall2 R l2 l3 -> Forall2 R l1 l3.
Proof.
  intros Ht H12. revert l3. induction H12 as [|a b l1 l2 Hab _ IH]; intros l3 H23.
  - inversion H23. constructor.
  - inversion H23 as [|b' c l2' l3' Hbc H23' E1 E2]. subst.
    constructor; [exact (Ht _ _ _ Hab Hbc) | apply IH; exact H23'].
Qed.

Lemma Forall2_setNth {A : Type} (R : A -> A -> Prop) (l : list A) (i : nat)
  (a v : A) :
  (forall a, R a a) -> nth_error l i = Some a -> R a v ->
  Forall2 R l (setNth i v l).
Proof.
  intros Hr. revert i. induction l as [|b l IH]; intros [|i]; simpl;
    try discriminate.
  - intros [= ->] Hav. constructor; [exact Hav | apply Forall2_same; exact Hr].
  - intros Hi Hav. constructor; [apply Hr | apply IH; assumption].
Qed.

Lemma Forall2_nth_error {A : Type} (R : A -> A -> Prop) (l l' : list A) (i : nat)
  (a : A) :
  Forall2 R l l' -> nth_error l i = Some a ->
  exists b, nth_error l' i = Some b /\ R a b.
Proof.
  intros H. revert i. induction H as [|x y l l' Hxy _ IH]; intros [|i]; simpl;
    try discriminate.
  - intros [= ->]. exists y. split; [reflexivity | exact Hxy].
  - apply IH.
Qed.

Lemma coinRel_refl (k : Coin.t) : coinRel k k.
Proof. unfold coinRel. tauto. Qed.

Lemma coinRel_trans (a b c : Coin.t) : coinRel a b -> coinRel b c -> coinRel a c.
Proof.
  unfold coinRel. intros (H1 & H2 & H3 & H4 & H5) (K1 & K2 & K3 & K4 & K5).
  repeat split; try congruence. auto.
Qed.

Lemma enemyRel_refl (e : Enemy.t) : enemyRel e e.
Proof. unfold enemyRel. repeat split; auto. left. reflexivity. Qed.

Lemma enemyRel_trans (a b c : Enemy.t) :
  enemyRel a b -> enemyRel b c -> enemyRel a c.
Proof.
  unfold enemyRel.
  intros (H1 & H2 & H3 & H4 & H5 & H6) (K1 & K2 & K3 & K4 & K5 & K6).
  repeat split; try congruence.
  - destruct H5 as [H5 | H5], K5 as [K5 | K5]; rewrite K5, H5;
      [left | right | right | left]; ring.
  - intros Ha. specialize (H6 Ha). subst b. apply K6. exact Ha.
Qed.

Lemma playerRel_refl (p : Ent.t) : playerRel p p.
Proof. unfold playerRel. tauto. Qed.

Lemma playerRel_trans (a b c : Ent.t) :
  playerRel a b -> playerRel b c -> playerRel a c.
Proof.
  unfold playerRel. intros (H1 & H2 & H3) (K1 & K2 & K3).
  repeat split; try congruence. auto.
Qed.

Lemma keeps_refl (g : Game) : keeps g g.
Proof.
  unfold keeps. split; [reflexivity |].
  split; [apply Forall2_same; apply coinRel_refl |].
  split; [apply Forall2_same; apply enemyRel_refl |].
  split; [apply playerRel_refl |]. lia.
Qed.

Lemma keeps_trans (a b c : Game) : keeps a b -> keeps b c -> keeps a c.
Proof.
  unfold keeps.
  intros (H1 & H2 & H3 & H4 & H5 & H6) (K1 & K2 & K3 & K4 & K5 & K6).
  split; [congruence |].
  split; [exact (Forall2_compose _ _ _ _ coinRel_trans H2 K2) |].
  split; [exact (Forall2_compose _ _ _ _ enemyRel_trans H3 K3) |].
  split; [exact (playerRel_trans _ _ _ H4 K4) |]. lia.
Qed.

Lemma applyInput_fields (keys : Keys) (p : Ent.t) :
  Ent.w (applyInput keys p) = Ent.w p /\ Ent.h (applyInput keys p) = Ent.h p
  /\ Ent.alive (applyInput keys p) = Ent.alive p
  /\ Ent.x (applyInput keys p) = Ent.x p /\ Ent.y (applyInput keys p) = Ent.y p.
Proof.
  unfold applyInput.
  destruct p as [x y w h vx vy og fc al].
  destruct (left keys), (right keys), (up keys), og; repeat split; reflexivity.
Qed.

Lemma movePlayer_rel (level : list string) (keys : Keys) (dt : Q) (p : Ent.t) :
  playerRel p (movePlayer level keys dt p).
Proof.
  unfold movePlayer, playerRel.
  pose proof (applyInput_fields keys p) as (Aw & Ah & Aa & _).
  set (p1 := applyInput keys p) in *.
  set (p2 := Ent.set_vy (Ent.vy p1 + GRAV * dt) p1).
  pose proof (moveEntityX_fields level p2 (Ent.vx p2 * dt)) as (_ & Xw & Xh & _ & Xa).
  set (p3 := moveEntityX level p2 (Ent.vx p2 * dt)) in *.
  pose proof (moveEntityY_fields level p3 (Ent.vy p3 * dt)) as (_ & Yw & Yh & _ & _ & Ya).
  cbv zeta in *. rewrite Yw, Yh, Ya, Xw, Xh, Xa. simpl.
  rewrite Aw, Ah, Aa. tauto.
Qed.

Lemma set_player_keeps (p' : Ent.t) (g : Game) :
  playerRel (player g) p' -> keeps g (set_player p' g).
Proof.
  intros H. unfold keeps. simpl. split; [reflexivity |].
  split; [apply Forall2_same; apply coinRel_refl |].
  split; [apply Forall2_same; apply enemyRel_refl |].
  split; [exact H |]. lia.
Qed.

Lemma collectCoins_rel (p : Ent.t) (cs : list Coin.t) (s : Z) :
  Forall2 coinRel cs (fst (collectCoins p cs s))
  /\ (s <= snd (collectCoins p cs s))%Z.
Proof.
  revert s. induction cs as [|k cs IH]; intros s; simpl.
  - split; [constructor | lia].
  - destruct (negb (Coin.picked k) && rectsIntersect (coinBox k) (entBox p)).
    + specialize (IH (s + 1)%Z). destruct (collectCoins p cs (s + 1)) as [cs' s'].
      simpl in *. destruct IH as [IH1 IH2]. split; [| lia].
      constructor; [| exact IH1]. unfold coinRel. simpl. tauto.
    + specialize (IH s). destruct (collectCoins p cs s) as [cs' s'].
      simpl in *. destruct IH as [IH1 IH2]. split; [| lia].
      constructor; [apply coinRel_refl | exact IH1].
Qed.

Lemma coinPhase_keeps (g : Game) : keeps g (coinPhase g).
Proof.
  unfold coinPhase.
  pose proof (collectCoins_rel (player g) (coins g) (scoreRef g)) as [H1 H2].
  destruct (collectCoins (player g) (coins g) (scoreRef g)) as [cs s].
  unfold keeps. simpl in *. split; [reflexivity |].
  split; [exact H1 |].
  split; [apply Forall2_same; apply enemyRel_refl |].
  split; [apply playerRel_refl |]. lia.
Qed.

Lemma hurt_keeps (g : Game) : keeps g (hurt g).
Proof.
  unfold hurt, keeps. simpl.
  destruct (livesRef g - 1 <=? 0)%Z; simpl;
    (split; [reflexivity |];
     split; [apply Forall2_same; apply coinRel_refl |];
     split; [apply Forall2_same; apply enemyRel_refl |];
     split; [| lia]);
    unfold playerRel; simpl; repeat split; auto.
  intros H. discriminate H.
Qed.

Lemma setEnemy_keeps (i : nat) (en en' : Enemy.t) (g : Game) :
  nth_error (enemies g) i = Some en -> enemyRel en en' ->
  keeps g (setEnemy i en' g).
Proof.
  intros Hi Hr. unfold keeps. simpl. split; [reflexivity |].
  split; [apply Forall2_same; apply coinRel_refl |].
  split; [exact (Forall2_setNth _ _ _ _ _ enemyRel_refl Hi Hr) |].
  split; [apply playerRel_refl |]. lia.
Qed.

Lemma killed_rel (en : Enemy.t) : enemyRel en (Enemy.set_alive false en).
Proof.
  unfold enemyRel. simpl. repeat split; auto; [left; reflexivity |].
  intros H. destruct en. simpl in *. subst. reflexivity.
Qed.

Lemma stomp_keeps (i : nat) (en : Enemy.t) (g : Game) :
  nth_error (enemies g) i = Some en -> keeps g (stomp i en g).
Proof.
  intros Hi. unfold stomp.
  apply keeps_trans with (setEnemy i (Enemy.set_alive false en) g).
  - apply (setEnemy_keeps i en); [exact Hi | apply killed_rel].
  - unfold keeps. simpl. split; [reflexivity |].
    split; [apply Forall2_same; apply coinRel_refl |].
    split; [apply Forall2_same; apply enemyRel_refl |].
    split; [unfold playerRel; simpl; tauto |]. lia.
Qed.

Lemma touch_keeps (i : nat) (en : Enemy.t) (g : Game) :
  nth_error (enemies g) i = Some en -> keeps g (touch i en g).
Proof.
  intros Hi. unfold touch.
  destruct (rectsIntersect _ _); [| apply keeps_refl].
  destruct (stompTest _ _); [apply stomp_keeps; exact Hi | apply hurt_keeps].
Qed.

Lemma patrol_rel (level : list string) (dt : Q) (en : Enemy.t) :
  Enemy.alive en = true -> enemyRel en (patrol level dt en).
Proof.
  intros Ha. unfold patrol, enemyRel.
  destruct (negb (isSolidAtColRow level _ _)); simpl; repeat split;
    try (intros H; congruence).
  - right. ring.
  - left. reflexivity.
Qed.

Lemma enemyStep_keeps (level : list string) (dt : Q) (g : Game) (i : nat) :
  keeps g (enemyStep level dt g i).
Proof.
  unfold enemyStep. destruct (nth_error (enemies g) i) as [en|] eqn:Hi;
    [| apply keeps_refl].
  destruct (Enemy.alive en) eqn:Ha; simpl; [| apply keeps_refl].
  apply keeps_trans with (setEnemy i (patrol level dt en) g).
  - apply (setEnemy_keeps i en); [exact Hi | apply patrol_rel; exact Ha].
  - apply touch_keeps. simpl. apply setNth_same.
    apply nth_error_lt with en. exact Hi.
Qed.

Lemma fold_enemyStep_keeps (level : list string) (dt : Q) (l : list nat) (g : Game) :
  keeps g (fold_left (enemyStep level dt) l g).
Proof.
  revert g. induction l as [|i l IH]; intros g; simpl; [apply keeps_refl |].
  apply keeps_trans with (enemyStep level dt g i);
    [apply enemyStep_keeps | apply IH].
Qed.

Lemma voidFall_keeps (level : list string) (g : Game) : keeps g (voidFall level g).
Proof.
  unfold voidFall. destruct (Qltb _ _); [apply hurt_keeps | apply keeps_refl].
Qed.

Lemma update_keeps (level : list string) (keys : Keys) (dt : Q) (g : Game) :
  keeps g (update level keys dt g).
Proof.
  unfold update. destruct (negb (Ent.alive (player g))); [apply keeps_refl |].
  eapply keeps_trans; [| apply voidFall_keeps].
  eapply keeps_trans; [| apply fold_enemyStep_keeps].
  eapply keeps_trans; [| apply coinPhase_keeps].
  apply set_player_keeps. apply movePlayer_rel.
Qed.

Lemma run_keeps (level : list string) (frames : list (Keys * Q)) (g : Game) :
  keeps g (run level frames g).
Proof.
  unfold run. revert g. induction frames as [|f frames IH]; intros g; simpl;
    [apply keeps_refl |].
  eapply keeps_trans; [apply update_keeps | apply IH].
Qed.

(** X13.  A run of steps keeps the shape of the world: the tiles, the number
    of coins and of enemies, the place of every coin, the height, size and
    speed of every enemy and its direction up to the sign, and the size of
    the player. *)
Theorem run_keeps_shape (level : list string) (frames : list (Keys * Q))
  (g : Game) :
  let g' := run level frames g in
  tiles g' = tiles g
  /\ List.length (coins g') = List.length (coins g)
  /\ List.length (enemies g') = List.length (enemies g)
  /\ (forall i coin, nth_error (coins g) i = Some coin ->
        exists coin', nth_error (coins g') i = Some coin'
                      /\ Coin.x coin' = Coin.x coin /\ Coin.y coin' = Coin.y coin)
  /\ (forall i en, nth_error (enemies g) i = Some en ->
        exists en', nth_error (enemies g') i = Some en'
                    /\ Enemy.y en' = Enemy.y en /\ Enemy.w en' = Enemy.w en
                    /\ Enemy.h en' = Enemy.h en
                    /\ Enemy.speed en' = Enemy.speed en
                    /\ (Enemy.dir en' == Enemy.dir en
                        \/ Enemy.dir en' == - Enemy.dir en))
  /\ Ent.w (player g') = Ent.w (player g)
  /\ Ent.h (player g') = Ent.h (player g).
Proof.
  destruct (run_keeps level frames g) as (Ht & Hc & He & (Hw & Hh & _) & _).
  cbv zeta. split; [exact Ht |].
  split; [symmetry; exact (Forall2_length Hc) |].
  split; [symmetry; exact (Forall2_length He) |].
  split; [| split; [| split; [exact Hw | exact Hh]]].
  - intros i coin Hi.
    destruct (Forall2_nth_error _ _ _ _ _ Hc Hi) as [coin' [Hi' (Hx & Hy & _)]].
    exists coin'. auto.
  - intros i en Hi.
    destruct (Forall2_nth_error _ _ _ _ _ He Hi)
      as [en' [Hi' (Hy & Hw' & Hh' & Hs & Hd & _)]].
    exists en'. auto 10.
Qed.

Lemma run_keeps_shape_witness :
  exists en', nth_error (enemies (run twoEnemies twoHits (mount twoEnemies))) 1
              = Some en'
              /\ Enemy.y en' = inject_Z 0 * TILE + TILE - 40.
Proof.
  destruct (proj1 (proj2 (proj2 (proj2 (proj2
              (run_keeps_shape twoEnemies twoHits (mount twoEnemies))))))
              1%nat (enemyOf (0, 5)%nat) eq_refl)
    as [en' [Hi [Hy _]]].
  exists en'. split; [exact Hi | exact Hy].
Defined.

Lemma coin_eta (k k' : Coin.t) :
  coinRel k k' -> Coin.picked k = true -> k' = k.
Proof.
  intros (Hx & Hy & Hr & Hc & Hp) Ht. specialize (Hp Ht).
  destruct k, k'. simpl in *. congruence.
Qed.

(** X14.  Along a run of steps the score never goes down and the lives never
    go up; a coin that is picked, an enemy that is dead and a player that is
    dead stay exactly as they are, and with a dead player the whole world
    does. *)
Theorem run_is_monotone (level : list string) (frames : list (Keys * Q))
  (g : Game) :
  let g' := run level frames g in
  (scoreRef g <= scoreRef g')%Z
  /\ (livesRef g' <= livesRef g)%Z
  /\ (forall i coin, nth_error (coins g) i = Some coin ->
        Coin.picked coin = true -> nth_error (coins g') i = Some coin)
  /\ (forall i en, nth_error (enemies g) i = Some en ->
        Enemy.alive en = false -> nth_error (enemies g') i = Some en)
  /\ (Ent.alive (player g') = true -> Ent.alive (player g) = true)
  /\ (Ent.alive (player g) = false -> g' = g).
Proof.
  destruct (run_keeps level frames g) as (_ & Hc & He & (_ & _ & Ha) & Hs & Hl).
  cbv zeta. split; [exact Hs |]. split; [exact Hl |].
  split; [| split; [| split; [exact Ha | apply run_dead]]].
  - intros i coin Hi Hp.
    destruct (Forall2_nth_error _ _ _ _ _ Hc Hi) as [coin' [Hi' Hr]].
    rewrite Hi'. f_equal. exact (coin_eta _ _ Hr Hp).
  - intros i en Hi Hd.
    destruct (Forall2_nth_error _ _ _ _ _ He Hi) as [en' [Hi' Hr]].
    rewrite Hi'. f_equal. apply Hr. exact Hd.
Qed.

Lemma run_is_monotone_witness :
  let g := mkGame [] [Coin.mk 24 24 0 0 true] [Enemy.mk 50 8 36 36 60 1 false]
                  (Ent.mk 0 0 36 42 0 0 false 1 true) 5%Z 3%Z in
  let g' := run [] [(holdRight, slowFrame); (idle, slowFrame)] g in
  nth_error (coins g') 0 = Some (Coin.mk 24 24 0 0 true)
  /\ nth_error (enemies g') 0 = Some (Enemy.mk 50 8 36 36 60 1 false).
Proof.
  intros g g'.
  destruct (run_is_monotone [] [(holdRight, slowFrame); (idle, slowFrame)] g)
    as (_ & _ & Hc & He & _).
  split; [exact (Hc 0%nat _ eq_refl eq_refl) | exact (He 0%nat _ eq_refl eq_refl)].
Defined.

(** ** Worlds with at most one enemy *)

Lemma rectsIntersect_true (a b : Rect) :
  rectsIntersect a b = true ->
  rect_y b < rect_y a + rect_h a /\ rect_y a < rect_y b + rect_h b.
Proof.
  unfold rectsIntersect.
  rewrite negb_true_iff, !orb_false_iff, !Qle_bool_false. tauto.
Qed.

Lemma worldH_nonneg (level : list string) : 0 <= worldH level.
Proof.
  unfold worldH, rows.
  assert (H : 0 <= inject_Z (Z.of_nat (List.length level))).
  { change 0 with (inject_Z 0). rewrite <- Zle_Qle. lia. }
  unfold TILE. lra.
Qed.

Lemma coinPhase_fields (g : Game) :
  enemies (coinPhase g) = enemies g /\ livesRef (coinPhase g) = livesRef g
  /\ player (coinPhase g) = player g.
Proof.
  unfold coinPhase. destruct (collectCoins _ _ _). repeat split.
Qed.

Lemma patrol_fields (level : list string) (dt : Q) (en : Enemy.t) :
  Enemy.y (patrol level dt en) = Enemy.y en
  /\ Enemy.h (patrol level dt en) = Enemy.h en.
Proof. unfold patrol. destruct (negb _); split; reflexivity. Qed.

(** The lives after [hurt], for a living player with a life to lose. *)
Lemma hurt_lives (h : Game) :
  (1 <= livesRef h)%Z ->
  Ent.alive (player h) = true ->
  (Ent.alive (player (hurt h)) = true -> (1 <= livesRef (hurt h))%Z)
  /\ (Ent.alive (player (hurt h)) = false -> livesRef (hurt h) = 0%Z)
  /\ (Ent.y (player (hurt h)) = Ent.y (player h)
      \/ Ent.y (player (hurt h)) = 0).
Proof.
  intros Hl Ha. unfold hurt. simpl.
  destruct (livesRef h - 1 <=? 0)%Z eqn:E; simpl.
  - apply Z.leb_le in E.
    split; [intros H; discriminate H |]. split; [intros _; lia |].
    left. reflexivity.
  - apply Z.leb_gt in E.
    split; [intros _; lia |]. split; [intros H; congruence |].
    right. reflexivity.
Qed.

(** With at most one enemy the loop takes at most one life, and when it
    does, the player was above the line of the fall check. *)
Lemma loop_single (level : list string) (dt : Q) (g : Game) :
  (List.length (enemies g) <= 1)%nat ->
  Forall (fun en => Enemy.y en + Enemy.h en <= worldH level + 500) (enemies g) ->
  (livesRef (enemiesLoop level dt g) = livesRef g
   /\ Ent.alive (player (enemiesLoop level dt g)) = Ent.alive (player g))
  \/ (exists g2, enemiesLoop level dt g = hurt g2
                 /\ livesRef g2 = livesRef g /\ player g2 = player g
                 /\ Ent.y (player g) < worldH level + 500).
Proof.
  intros Hlen Hb. unfold enemiesLoop.
  destruct (enemies g) as [|en [|en2 rest]] eqn:Ees;
    cbn [List.length] in Hlen; try lia.
  - left. split; reflexivity.
  - cbn [List.length seq fold_left]. unfold enemyStep. rewrite Ees.
    change (nth_error [en] 0) with (Some en). cbv iota.
    destruct (Enemy.alive en) eqn:Ha; cbn [negb]; cbv iota;
      [| left; split; reflexivity].
    unfold touch.
    change (player (setEnemy 0 (patrol level dt en) g)) with (player g).
    destruct (rectsIntersect (enemyBox (patrol level dt en)) (entBox (player g)))
      eqn:Hmeet; [| left; split; reflexivity].
    destruct (stompTest (player g) (patrol level dt en));
      [left; split; reflexivity |].
    right. exists (setEnemy 0 (patrol level dt en) g).
    split; [reflexivity |]. split; [reflexivity |]. split; [reflexivity |].
    apply rectsIntersect_true in Hmeet.
    unfold enemyBox, entBox in Hmeet. cbn [rect_y rect_h] in Hmeet.
    destruct (patrol_fields level dt en) as [Ey Eh]. rewrite Ey, Eh in Hmeet.
    inversion Hb as [|? ? Hen _]. subst. lra.
Qed.

Lemma update_alive (level : list string) (keys : Keys) (dt : Q) (g : Game) :
  Ent.alive (player g) = true ->
  update level keys dt g
  = voidFall level
      (enemiesLoop level dt
         (coinPhase (set_player (movePlayer level keys dt (player g)) g))).
Proof. intros H. unfold update. rewrite H. reflexivity. Qed.

Lemma movePlayer_alive (level : list string) (keys : Keys) (dt : Q) (p : Ent.t) :
  Ent.alive (movePlayer level keys dt p) = Ent.alive p.
Proof.
  unfold movePlayer.
  pose proof (applyInput_fields keys p) as (_ & _ & Aa & _).
  set (p1 := applyInput keys p) in *.
  set (p2 := Ent.set_vy (Ent.vy p1 + GRAV * dt) p1).
  pose proof (moveEntityX_fields level p2 (Ent.vx p2 * dt)) as (_ & _ & _ & _ & Xa).
  set (p3 := moveEntityX level p2 (Ent.vx p2 * dt)) in *.
  pose proof (moveEntityY_fields level p3 (Ent.vy p3 * dt))
    as (_ & _ & _ & _ & _ & Ya).
  cbv zeta in *. rewrite Ya, Xa. exact Aa.
Qed.

Lemma enemies_bounded_keeps (level : list string) (g g' : Game) :
  keeps g g' ->
  (List.length (enemies g) <= 1)%nat ->
  Forall (fun en => Enemy.y en + Enemy.h en <= worldH level + 500) (enemies g) ->
  (List.length (enemies g') <= 1)%nat
  /\ Forall (fun en => Enemy.y en + Enemy.h en <= worldH level + 500) (enemies g').
Proof.
  intros (_ & _ & He & _) Hlen Hb.
  split; [rewrite <- (Forall2_length He); exact Hlen |].
  clear Hlen. induction He as [|e e' l l' Hr _ IH]; [constructor |].
  inversion Hb as [|? ? Hbe Hbl]. subst.
  constructor; [| apply IH; exact Hbl].
  destruct Hr as (Ey & _ & Eh & _). rewrite Ey, Eh. exact Hbe.
Qed.

Lemma update_safe (level : list string) (keys : Keys) (dt : Q) (g : Game) :
  safeWorld level g -> safeWorld level (update level keys dt g).
Proof.
  intros (Hlen & Hb & Hal & Hdl).
  destruct (enemies_bounded_keeps level g _ (update_keeps level keys dt g) Hlen Hb)
    as [Hlen' Hb'].
  split; [exact Hlen' |]. split; [exact Hb' |]. clear Hlen' Hb'.
  destruct (Ent.alive (player g)) eqn:Ea.
  2:{ rewrite (update_dead level keys dt g Ea), Ea.
      split; [intros H; discriminate H | exact Hdl]. }
  specialize (Hal eq_refl). rewrite (update_alive level keys dt g Ea).
  set (g0 := set_player (movePlayer level keys dt (player g)) g).
  destruct (coinPhase_fields g0) as (Fe & Fl & Fp).
  set (g1 := coinPhase g0) in *.
  assert (Fa : Ent.alive (player g1) = true).
  { rewrite Fp. unfold g0.
    change (player (set_player (movePlayer level keys dt (player g)) g))
      with (movePlayer level keys dt (player g)).
    rewrite movePlayer_alive. exact Ea. }
  assert (Fl' : livesRef g1 = livesRef g) by (rewrite Fl; reflexivity).
  assert (Fe' : enemies g1 = enemies g) by (rewrite Fe; reflexivity).
  assert (Hlen1 : (List.length (enemies g1) <= 1)%nat) by (rewrite Fe'; exact Hlen).
  assert (Hb1 : Forall (fun en => Enemy.y en + Enemy.h en <= worldH level + 500)
                  (enemies g1)) by (rewrite Fe'; exact Hb).
  pose proof (worldH_nonneg level) as HW.
  destruct (loop_single level dt g1 Hlen1 Hb1) as [[Ll La] | [g2 (Eg & Ll & Lp & Ly)]].
  - (* no life lost in the loop *)
    unfold voidFall.
    destruct (Qltb (worldH level + 500) (Ent.y (player (enemiesLoop level dt g1)))).
    + assert (H1 : (1 <= livesRef (enemiesLoop level dt g1))%Z) by lia.
      assert (H2 : Ent.alive (player (enemiesLoop level dt g1)) = true)
        by (rewrite La; exact Fa).
      destruct (hurt_lives _ H1 H2) as (K1 & K2 & _). split; assumption.
    + rewrite Ll, La, Fa, Fl'.
      split; [intros _; exact Hal | intros H; discriminate H].
  - (* one life lost in the loop: the fall check does not fire *)
    assert (H1 : (1 <= livesRef g2)%Z) by lia.
    assert (H2 : Ent.alive (player g2) = true) by (rewrite Lp; exact Fa).
    destruct (hurt_lives _ H1 H2) as (K1 & K2 & K3).
    assert (Hno : Qltb (worldH level + 500)
                       (Ent.y (player (enemiesLoop level dt g1))) = false).
    { apply Qltb_ge. rewrite Eg. destruct K3 as [K3 | K3]; rewrite K3.
      - rewrite Lp. lra.
      - lra. }
    unfold voidFall. rewrite Hno, Eg. split; assumption.
Qed.

Lemma run_safe (level : list string) (frames : list (Keys * Q)) (g : Game) :
  safeWorld level g -> safeWorld level (run level frames g).
Proof.
  unfold run. revert g. induction frames as [|f frames IH]; intros g H; simpl;
    [exact H |].
  apply IH. apply update_safe. exact H.
Qed.

Lemma mount_safe (level : list string) :
  (List.length (enemies (mount level)) <= 1)%nat -> safeWorld level (mount level).
Proof.
  intros Hlen. destruct (mount_fields level) as (_ & _ & He & Hp & _ & Hl).
  split; [exact Hlen |]. split; [| split].
  - rewrite He. apply Forall_forall. intros en Hin.
    apply in_map_iff in Hin. destruct Hin as [rc [<- Hin]].
    unfold marks in Hin. apply filter_In in Hin. destruct Hin as [Hin _].
    destruct (enemyOf_inside level rc Hin) as (_ & _ & H). lra.
  - intros _. rewrite Hl. lia.
  - rewrite Hp.
    destruct (placeLast_fields (marks level "P") initialPlayer)
      as (_ & _ & _ & _ & _ & _ & ->).
    intros H. discriminate H.
Qed.

(** X15.  On a level with at most one enemy, the shipped one among them, the
    lives stay between 0 and 3 along every run from the built world, and the
    player is alive exactly while a life is left. *)
Theorem single_enemy_lives (level : list string) (frames : list (Keys * Q)) :
  (List.length (enemies (mount level)) <= 1)%nat ->
  let g := run level frames (mount level) in
  (0 <= livesRef g <= 3)%Z
  /\ (Ent.alive (player g) = true <-> (1 <= livesRef g)%Z).
Proof.
  intros Hlen g.
  destruct (run_safe level frames (mount level) (mount_safe level Hlen))
    as (_ & _ & Hal & Hdl).
  destruct (run_keeps level frames (mount level)) as (_ & _ & _ & _ & _ & Hl).
  destruct (mount_fields level) as (_ & _ & _ & _ & _ & Hl3).
  rewrite Hl3 in Hl. fold g in Hal, Hdl, Hl.
  destruct (Ent.alive (player g)) eqn:Ea.
  - specialize (Hal eq_refl). split; [lia |]. split; [intros _; exact Hal | reflexivity].
  - specialize (Hdl eq_refl). split; [lia |].
    split; [intros H; discriminate H | intros H; lia].
Qed.

Lemma single_enemy_lives_witness :
  (0 <= livesRef (run level0 intoTheGap (mount level0)) <= 3)%Z.
Proof.
  assert (Hlen : (List.length (enemies (mount level0)) <= 1)%nat).
  { vm_compute. lia. }
  exact (proj1 (single_enemy_lives level0 intoTheGap Hlen)).
Defined.

(** ** How much one step can take and give *)

Lemma touch_enemies_other (i j : nat) (en : Enemy.t) (g : Game) :
  i <> j -> nth_error (enemies (touch i en g)) j = nth_error (enemies g) j.
Proof.
  intros Hne. unfold touch. destruct (rectsIntersect _ _); [| reflexivity].
  destruct (stompTest _ _).
  - unfold stomp. cbn [enemies set_scoreRef set_player setEnemy set_enemies].
    apply setNth_other. exact Hne.
  - destruct (hurt_frame g) as (_ & -> & _). reflexivity.
Qed.

Lemma enemyStep_enemies_other (level : list string) (dt : Q) (g : Game) (i j : nat) :
  i <> j ->
  nth_error (enemies (enemyStep level dt g i)) j = nth_error (enemies g) j.
Proof.
  intros Hne. unfold enemyStep.
  destruct (nth_error (enemies g) i) as [en|]; [| reflexivity].
  destruct (negb (Enemy.alive en)); [reflexivity |].
  rewrite touch_enemies_other by exact Hne.
  cbn [enemies setEnemy set_enemies]. apply setNth_other. exact Hne.
Qed.

(** One enemy costs a life or gives two points, never both, and only when
    it is alive. *)
Lemma enemyStep_counters (level : list string) (dt : Q) (g : Game) (i : nat) :
  (2 * (livesRef g - livesRef (enemyStep level dt g i))
   + (scoreRef (enemyStep level dt g i) - scoreRef g)
   <= 2 * (if aliveIn (enemies g) i then 1 else 0))%Z.
Proof.
  unfold enemyStep, aliveIn.
  destruct (nth_error (enemies g) i) as [en|]; [| lia].
  destruct (Enemy.alive en); cbn [negb]; cbv iota; [| lia].
  unfold touch.
  change (player (setEnemy i (patrol level dt en) g)) with (player g).
  destruct (rectsIntersect _ _); [| cbn [livesRef scoreRef setEnemy set_enemies]; lia].
  destruct (stompTest _ _).
  - unfold stomp.
    cbn [livesRef scoreRef setEnemy set_enemies set_player set_scoreRef]. lia.
  - destruct (hurt_frame (setEnemy i (patrol level dt en) g))
      as (_ & _ & -> & _ & ->).
    cbn [livesRef scoreRef setEnemy set_enemies]. lia.
Qed.

Lemma fold_enemyStep_counters (level : list string) (dt : Q) (l : list nat)
  (g : Game) :
  NoDup l ->
  (2 * (livesRef g - livesRef (fold_left (enemyStep level dt) l g))
   + (scoreRef (fold_left (enemyStep level dt) l g) - scoreRef g)
   <= 2 * Z.of_nat (List.length (filter (aliveIn (enemies g)) l)))%Z.
Proof.
  revert g. induction l as [|i l IH]; intros g Hnd; cbn [fold_left filter].
  - cbn [List.length]. lia.
  - inversion Hnd as [|? ? Hni Hnd']. subst.
    specialize (IH (enemyStep level dt g i) Hnd').
    pose proof (enemyStep_counters level dt g i) as Hi.
    assert (E : filter (aliveIn (enemies (enemyStep level dt g i))) l
                = filter (aliveIn (enemies g)) l).
    { apply filter_ext_in. intros j Hj. unfold aliveIn.
      rewrite enemyStep_enemies_other; [reflexivity |].
      intros ->. contradiction. }
    rewrite E in IH.
    destruct (aliveIn (enemies g) i); cbn [List.length]; lia.
Qed.

Lemma living_by_index (es : list Enemy.t) :
  List.length (filter (aliveIn es) (seq 0 (List.length es)))
  = List.length (filter Enemy.alive es).
Proof.
  induction es as [|a es IH] using rev_ind; [reflexivity |].
  rewrite length_app. cbn [List.length]. rewrite seq_app, !filter_app, !length_app.
  cbn [seq filter Nat.add].
  assert (E : filter (aliveIn (es ++ [a])) (seq 0 (List.length es))
              = filter (aliveIn es) (seq 0 (List.length es))).
  { apply filter_ext_in. intros j Hj. apply in_seq in Hj. unfold aliveIn.
    rewrite nth_error_app1 by lia. reflexivity. }
  rewrite E, IH. f_equal.
  unfold aliveIn. rewrite nth_error_app2 by lia. rewrite Nat.sub_diag.
  cbn [nth_error]. destruct (Enemy.alive a); reflexivity.
Qed.

Lemma collectCoins_gain (p : Ent.t) (cs : list Coin.t) (s : Z) :
  (snd (collectCoins p cs s)
   <= s + Z.of_nat (List.length
                      (filter (fun coin => negb (Coin.picked coin)) cs)))%Z.
Proof.
  revert s. induction cs as [|k cs IH]; intros s; cbn [collectCoins filter].
  - cbn [snd List.length]. lia.
  - destruct (Coin.picked k); cbn [negb andb].
    + specialize (IH s). destruct (collectCoins p cs s). cbn [snd] in *. lia.
    + destruct (rectsIntersect _ _).
      * specialize (IH (s + 1)%Z). destruct (collectCoins p cs (s + 1)).
        cbn [snd List.length] in *. lia.
      * specialize (IH s). destruct (collectCoins p cs s).
        cbn [snd List.length] in *. lia.
Qed.

(** X16.  One step takes at most one life for each living enemy and one more
    for the fall, and gives at most one point for each coin not yet picked
    and two for each living enemy.  An enemy that takes a life gives no
    points in that step: twice the lives lost plus the points gained is at
    most twice the living enemies, plus the coins not picked, plus 2. *)
Theorem step_bounds (level : list string) (keys : Keys) (dt : Q) (g : Game) :
  let g' := update level keys dt g in
  (livesRef g - Z.of_nat (living g) - 1 <= livesRef g' <= livesRef g)%Z
  /\ (scoreRef g <= scoreRef g'
      <= scoreRef g + Z.of_nat (unpicked g) + 2 * Z.of_nat (living g))%Z
  /\ (2 * (livesRef g - livesRef g') + (scoreRef g' - scoreRef g)
      <= 2 * Z.of_nat (living g) + Z.of_nat (unpicked g) + 2)%Z.
Proof.
  cbv zeta.
  destruct (Ent.alive (player g)) eqn:Ea.
  2:{ rewrite (update_dead level keys dt g Ea). lia. }
  rewrite (update_alive level keys dt g Ea).
  set (g0 := set_player (movePlayer level keys dt (player g)) g).
  assert (Hc : (scoreRef g <= scoreRef (coinPhase g0)
                <= scoreRef g + Z.of_nat (unpicked g))%Z
               /\ livesRef (coinPhase g0) = livesRef g
               /\ enemies (coinPhase g0) = enemies g).
  { unfold coinPhase, unpicked.
    pose proof (collectCoins_gain (player g0) (coins g0) (scoreRef g0)) as Hg.
    pose proof (collectCoins_rel (player g0) (coins g0) (scoreRef g0)) as [_ Hm].
    destruct (collectCoins (player g0) (coins g0) (scoreRef g0)) as [cs s].
    cbn [snd] in Hg, Hm. split; [split; [exact Hm | exact Hg] |].
    split; reflexivity. }
  destruct Hc as (Hc1 & Hc2 & Hc3).
  set (g1 := coinPhase g0) in *.
  assert (Hloop : (2 * (livesRef g1 - livesRef (enemiesLoop level dt g1))
                   + (scoreRef (enemiesLoop level dt g1) - scoreRef g1)
                   <= 2 * Z.of_nat (living g))%Z).
  { unfold enemiesLoop, living. rewrite <- Hc3, <- living_by_index.
    apply fold_enemyStep_counters. apply seq_NoDup. }
  destruct (fold_enemyStep_keeps level dt (seq 0 (List.length (enemies g1))) g1)
    as (_ & _ & _ & _ & Hms & Hml).
  fold (enemiesLoop level dt g1) in Hms, Hml.
  set (g3 := enemiesLoop level dt g1) in *.
  unfold voidFall. destruct (Qltb _ _).
  - destruct (hurt_frame g3) as (_ & _ & -> & _ & ->). lia.
  - lia.
Qed.

(** ** The frame driver *)

Lemma loop_frame_time_aux (lastTime t : Q) :
  lastTime <= t -> 0 <= frameTime lastTime t /\ frameTime lastTime t <= 4 # 100.
Proof.
  intros Hle. unfold frameTime.
  set (last := if Qeq_bool lastTime 0 then t else lastTime).
  pose proof (Math_min_spec (4 # 100) ((t - last) / 1000)) as (Hm1 & Hm2 & Hm3).
  split; [| exact Hm1].
  assert (Hl : last <= t).
  { unfold last. destruct (Qeq_bool lastTime 0); [apply Qle_refl | exact Hle]. }
  assert (Hd : 0 <= (t - last) / 1000).
  { apply Qle_shift_div_l; [reflexivity | lra]. }
  destruct Hm3 as [E | E]; rewrite E; [discriminate | exact Hd].
Qed.

(** X17.  The frame time that [loop] hands to the step is never above 0.04.
    It is 0 on the first frame, when no time is stored yet, and it is never
    negative when the clock does not run backwards.  [loop] always stores the
    new time, and it leaves the world alone while the game is paused or the
    player is dead, so the frame after a pause is an ordinary one. *)
Theorem loop_frame_time (level : list string) (keys : Keys) (isPaused : bool)
  (t : Q) (st : Q * Game) :
  frameTime (fst st) t <= 4 # 100
  /\ (fst st == 0 -> frameTime (fst st) t == 0)
  /\ (fst st <= t -> 0 <= frameTime (fst st) t)
  /\ fst (loop level keys isPaused t st) = t
  /\ (isPaused = true \/ Ent.alive (player (snd st)) = false ->
      snd (loop level keys isPaused t st) = snd st)
  /\ (isPaused = false ->
      snd (loop level keys isPaused t st)
      = update level keys (frameTime (fst st) t) (snd st)).
Proof.
  unfold loop, frameTime. cbn [fst snd].
  set (last := if Qeq_bool (fst st) 0 then t else fst st).
  pose proof (Math_min_spec (4 # 100) ((t - last) / 1000)) as (Hm1 & Hm2 & Hm3).
  split; [exact Hm1 |]. split; [| split; [| split; [reflexivity | split]]].
  - intros H0. apply Qeq_bool_iff in H0. unfold last in *. rewrite H0 in *.
    assert (Ez : (t - t) / 1000 == 0) by (field).
    destruct Hm3 as [E | E]; [| rewrite E; exact Ez].
    apply Qle_antisym; [rewrite <- Ez; exact Hm2 | rewrite E; discriminate].
  - intros Hle.
    assert (Hl : last <= t).
    { unfold last. destruct (Qeq_bool (fst st) 0); [apply Qle_refl | exact Hle]. }
    assert (Hd : 0 <= (t - last) / 1000).
    { apply Qle_shift_div_l; [reflexivity | lra]. }
    destruct Hm3 as [E | E]; rewrite E; [discriminate | exact Hd].
  - intros [-> | Hd]; [reflexivity |].
    rewrite Hd, andb_false_r. reflexivity.
  - intros ->. cbn [negb andb].
    destruct (Ent.alive (player (snd st))) eqn:Ea; [reflexivity |].
    symmetry. apply update_dead. exact Ea.
Qed.

Lemma loop_frame_time_witness :
  0 <= frameTime 1000 1016
  /\ snd (loop level0 idle true 1016 (1000, mount level0)) = mount level0.
Proof.
  destruct (loop_frame_time level0 idle true 1016 (1000, mount level0))
    as (_ & _ & H3 & _ & H5 & _).
  split; [apply H3; discriminate | apply H5; left; reflexivity].
Defined.

Lemma applyInput_vx (keys : Keys) (p : Ent.t) :
  - MOVE_SPEED <= Ent.vx (applyInput keys p) <= MOVE_SPEED.
Proof.
  destruct p as [x y w h vx vy og fc al]. destruct keys as [l r u].
  destruct l, r, u, og; split; vm_compute; discriminate.
Qed.

(** X18.  With the frame time of [loop] and a clock that does not run
    backwards, the sideways move of the step asks for at most 11.2, less than
    a tile: a player of whole-number width whose scan meets no solid cell is
    still clear of every solid cell of its scan after that move, whatever
    keys are held. *)
Theorem driver_sideways_safe (level : list string) (keys : Keys)
  (lastTime t : Q) (p : Ent.t) :
  lastTime <= t ->
  firstSolid level p = None ->
  (exists n, Ent.w p == inject_Z n) ->
  let dt := frameTime lastTime t in
  let p1 := applyInput keys p in
  let p2 := Ent.set_vy (Ent.vy p1 + GRAV * dt) p1 in
  (- (56 # 5) <= Ent.vx p2 * dt <= 56 # 5)
  /\ firstSolid level (moveEntityX level p2 (Ent.vx p2 * dt)) = None.
Proof.
  intros Hle Hfree [n Hn] dt p1 p2.
  assert (Hdt : 0 <= dt <= 4 # 100).
  { destruct (loop_frame_time_aux lastTime t Hle) as [H1 H2]. split; assumption. }
  destruct (applyInput_fields keys p) as (Aw & Ah & _ & Ax & Ay).
  pose proof (applyInput_vx keys p) as [Hv1 Hv2]. fold p1 in Aw, Ah, Ax, Ay, Hv1, Hv2.
  assert (Hd : - (56 # 5) <= Ent.vx p2 * dt <= 56 # 5).
  { change (Ent.vx p2) with (Ent.vx p1). unfold MOVE_SPEED in *. destruct Hdt as [H0 H4].
    assert (U : Ent.vx p1 * dt <= 280 * dt)
      by (apply Qmult_le_compat_r; assumption).
    assert (L : - (280) * dt <= Ent.vx p1 * dt)
      by (apply Qmult_le_compat_r; assumption).
    split; lra. }
  split; [exact Hd |].
  apply (moveEntityX_free level p2 (Ent.vx p2 * dt) n).
  - rewrite <- Hfree.
    apply firstSolid_ext; unfold p2; cbn [Ent.x Ent.y Ent.w Ent.h Ent.set_vy];
      rewrite ?Ax, ?Ay, ?Aw, ?Ah; reflexivity.
  - change (Ent.w p2) with (Ent.w p1). rewrite Aw. exact Hn.
  - unfold TILE. destruct Hd. split; lra.
Qed.

Lemma driver_sideways_safe_witness :
  let lvl := ["  #"%string] in
  let p := Ent.mk 50 0 36 42 0 0 false 1 true in
  let dt := frameTime 1000 1040 in
  let p1 := applyInput holdRight p in
  let p2 := Ent.set_vy (Ent.vy p1 + GRAV * dt) p1 in
  (- (56 # 5) <= Ent.vx p2 * dt <= 56 # 5)
  /\ firstSolid lvl (moveEntityX lvl p2 (Ent.vx p2 * dt)) = None.
Proof.
  intros lvl p.
  apply (driver_sideways_safe lvl holdRight 1000 1040 p).
  - discriminate.
  - reflexivity.
  - exists 36%Z. reflexivity.
Defined.

(** ** The keyboard *)

Lemma in2_eqb (key a b : string) :
  In key [a; b] <-> (key =? a)%string || (key =? b)%string = true.
Proof.
  rewrite orb_true_iff, !String.eqb_eq. cbn [In].
  split; [intros [H | [H | []]]; auto | intros [H | H]; auto].
Qed.

Lemma in3_eqb (key a b c : string) :
  In key [a; b; c] <->
  (key =? a)%string || (key =? b)%string || (key =? c)%string = true.
Proof.
  rewrite !orb_true_iff, !String.eqb_eq. cbn [In].
  split; [intros [H | [H | [H | []]]]; auto | intros [[H | H] | H]; auto].
Qed.

Lemma onKeyUp_flags (key : string) (ks : Keys) :
  onKeyUp key ks
  = mkKeys
      (if (key =? "ArrowLeft")%string || (key =? "a")%string
       then false else left ks)
      (if (key =? "ArrowRight")%string || (key =? "d")%string
       then false else right ks)
      (if (key =? "ArrowUp")%string || (key =? "w")%string || (key =? " ")%string
       then false else up ks).
Proof.
  destruct ks as [l r u]. unfold onKeyUp. cbn [left right up].
  destruct ((key =? "ArrowLeft")%string || (key =? "a")%string),
           ((key =? "ArrowRight")%string || (key =? "d")%string),
           ((key =? "ArrowUp")%string || (key =? "w")%string || (key =? " ")%string);
    reflexivity.
Qed.

Lemma onKeyDown_flags (key : string) (st : Keys * bool) :
  onKeyDown key st
  = (mkKeys
       (if (key =? "ArrowLeft")%string || (key =? "a")%string
        then true else left (fst st))
       (if (key =? "ArrowRight")%string || (key =? "d")%string
        then true else right (fst st))
       (if (key =? "ArrowUp")%string || (key =? "w")%string || (key =? " ")%string
        then true else up (fst st)),
     if (key =? "p")%string then negb (snd st) else snd st).
Proof.
  destruct st as [[l r u] paused]. unfold onKeyDown. cbn [fst snd left right up].
  destruct ((key =? "ArrowLeft")%string || (key =? "a")%string),
           ((key =? "ArrowRight")%string || (key =? "d")%string),
           ((key =? "ArrowUp")%string || (key =? "w")%string || (key =? " ")%string);
    reflexivity.
Qed.

Lemma if_flag (b v w : bool) :
  ((b = true -> (if b then v else w) = v)
   /\ (b <> true -> (if b then v else w) = w)).
Proof. destruct b; split; intros H; congruence. Qed.

(** X19.  A release of a key clears the flag of the direction the key is
    bound to (left: ArrowLeft, a; right: ArrowRight, d; up: ArrowUp, w,
    space) and leaves the other two flags alone; a press sets that flag and
    leaves the other two alone; only [p] changes the pause flag, by flipping
    it.  So pressing a key and then releasing it leaves the keys as releasing
    it alone does, releasing one key of a direction clears the direction even
    while another key of that direction is still held, pressing [p] twice
    restores the pause flag, and a key that is none of those named changes
    nothing. *)
Theorem keys_release_wins (key : string) (st : Keys * bool) :
  let released := onKeyUp key (fst st) in
  let pressed := onKeyDown key st in
  (((In key ["ArrowLeft"; "a"]%string -> left released = false)
    /\ (~ In key ["ArrowLeft"; "a"]%string -> left released = left (fst st)))
   /\ ((In key ["ArrowRight"; "d"]%string -> right released = false)
       /\ (~ In key ["ArrowRight"; "d"]%string -> right released = right (fst st)))
   /\ ((In key ["ArrowUp"; "w"; " "]%string -> up released = false)
       /\ (~ In key ["ArrowUp"; "w"; " "]%string -> up released = up (fst st))))
  /\ (((In key ["ArrowLeft"; "a"]%string -> left (fst pressed) = true)
       /\ (~ In key ["ArrowLeft"; "a"]%string ->
           left (fst pressed) = left (fst st)))
      /\ ((In key ["ArrowRight"; "d"]%string -> right (fst pressed) = true)
          /\ (~ In key ["ArrowRight"; "d"]%string ->
              right (fst pressed) = right (fst st)))
      /\ ((In key ["ArrowUp"; "w"; " "]%string -> up (fst pressed) = true)
          /\ (~ In key ["ArrowUp"; "w"; " "]%string ->
              up (fst pressed) = up (fst st)))
      /\ ((key = "p"%string -> snd pressed = negb (snd st))
          /\ (key <> "p"%string -> snd pressed = snd st)))
  /\ onKeyUp key (fst pressed) = released
  /\ (forall other,
        (In key ["ArrowLeft"; "a"]%string ->
         left (onKeyUp key (fst (onKeyDown other (onKeyDown key st)))) = false)
        /\ (In key ["ArrowRight"; "d"]%string ->
            right (onKeyUp key (fst (onKeyDown other (onKeyDown key st)))) = false)
        /\ (In key ["ArrowUp"; "w"; " "]%string ->
            up (onKeyUp key (fst (onKeyDown other (onKeyDown key st)))) = false))
  /\ (snd (onKeyDown "p" (onKeyDown "p" st)) = snd st
      /\ fst (onKeyDown "p" st) = fst st)
  /\ (~ In key ["ArrowLeft"; "a"; "ArrowRight"; "d"; "ArrowUp"; "w"; " "; "p"]%string ->
      onKeyDown key st = st /\ onKeyUp key (fst st) = fst st).
Proof.
  cbv zeta.
  split; [| split; [| split; [| split; [| split]]]].
  - rewrite onKeyUp_flags. cbn [left right up].
    rewrite in2_eqb, in2_eqb, in3_eqb.
    split; [apply if_flag | split; apply if_flag].
  - rewrite onKeyDown_flags. cbn [fst snd left right up].
    rewrite in2_eqb, in2_eqb, in3_eqb.
    split; [apply if_flag | split; [apply if_flag | split; [apply if_flag |]]].
    split.
    + intros ->. reflexivity.
    + intros Hne. apply String.eqb_neq in Hne. rewrite Hne. reflexivity.
  - rewrite onKeyDown_flags, !onKeyUp_flags. cbn [fst left right up].
    destruct ((key =? "ArrowLeft")%string || (key =? "a")%string),
             ((key =? "ArrowRight")%string || (key =? "d")%string),
             ((key =? "ArrowUp")%string || (key =? "w")%string
              || (key =? " ")%string); reflexivity.
  - intros other. rewrite onKeyUp_flags. cbn [left right up].
    rewrite in2_eqb, in2_eqb, in3_eqb.
    split; [| split]; intros ->; reflexivity.
  - destruct st as [[l r u] paused]. split; [| reflexivity].
    cbn. apply negb_involutive.
  - intros Hnot. destruct st as [[l r u] paused].
    assert (E : forall k, In k ["ArrowLeft"; "a"; "ArrowRight"; "d"; "ArrowUp";
                                "w"; " "; "p"]%string -> (key =? k)%string = false).
    { intros k Hk. apply String.eqb_neq. intros ->. contradiction. }
    unfold onKeyDown, onKeyUp. cbn [fst snd left right up].
    rewrite !E by (cbn; tauto). split; reflexivity.
Qed.

Lemma keys_release_wins_witness :
  right (onKeyUp "d" (fst (onKeyDown "ArrowRight" (onKeyDown "d" (idle, false)))))
  = false
  /\ (onKeyDown "x" (idle, false) = (idle, false)
      /\ onKeyUp "x" (fst (idle, false)) = fst (idle, false)).
Proof.
  split.
  - apply (proj1 (proj2 (proj1 (proj2 (proj2 (proj2
             (keys_release_wins "d" (idle, false))))) "ArrowRight"%string))).
    right. left. reflexivity.
  - apply (proj2 (proj2 (proj2 (proj2 (proj2
             (keys_release_wins "x" (idle, false))))))).
    cbn. intros H.
    repeat (destruct H as [H | H]; [discriminate H |]). exact H.
Defined.

(** ** Coins, in the step *)

Lemma living_setNth (es : list Enemy.t) (i : nat) (en v : Enemy.t) :
  nth_error es i = Some en ->
  (List.length (filter Enemy.alive (setNth i v es))
   + (if Enemy.alive en then 1 else 0)
   = List.length (filter Enemy.alive es)
     + (if Enemy.alive v then 1 else 0))%nat.
Proof.
  revert i. induction es as [|a es IH]; intros [|i]; cbn [nth_error setNth filter];
    try discriminate.
  - intros [= ->]. destruct (Enemy.alive en), (Enemy.alive v);
      cbn [List.length]; lia.
  - intros Hi. specialize (IH i Hi).
    destruct (Enemy.alive a); cbn [List.length]; lia.
Qed.

Lemma patrol_alive (level : list string) (dt : Q) (en : Enemy.t) :
  Enemy.alive (patrol level dt en) = Enemy.alive en.
Proof. unfold patrol. destruct (negb _); reflexivity. Qed.

(** The score and twice the number of living enemies add up to the same
    before and after the body of the enemy loop: the score moves only by the
    2 of a stomp, and a stomp is the only way an enemy dies. *)
Lemma enemyStep_potential (level : list string) (dt : Q) (g : Game) (i : nat) :
  (scoreRef (enemyStep level dt g i)
   + 2 * Z.of_nat (living (enemyStep level dt g i))
   = scoreRef g + 2 * Z.of_nat (living g))%Z.
Proof.
  unfold enemyStep.
  destruct (nth_error (enemies g) i) as [en|] eqn:Hi; [| reflexivity].
  destruct (Enemy.alive en) eqn:Ha; cbn [negb]; cbv iota; [| reflexivity].
  pose proof (living_setNth (enemies g) i en (patrol level dt en) Hi) as H1.
  rewrite patrol_alive, Ha in H1.
  set (en' := patrol level dt en) in *.
  assert (Hi' : nth_error (enemies (setEnemy i en' g)) i = Some en').
  { cbn [enemies setEnemy set_enemies]. apply setNth_same.
    apply nth_error_lt with en. exact Hi. }
  unfold touch. change (player (setEnemy i en' g)) with (player g).
  destruct (rectsIntersect _ _).
  - destruct (stompTest _ _).
    + pose proof (living_setNth (enemies (setEnemy i en' g)) i en'
                    (Enemy.set_alive false en') Hi') as H2.
      unfold en' in H2 at 3. rewrite patrol_alive, Ha in H2.
      cbn [Enemy.alive Enemy.set_alive] in H2.
      unfold stomp, living in *.
      cbn [enemies scoreRef setEnemy set_enemies set_player set_scoreRef] in *.
      lia.
    + destruct (hurt_frame (setEnemy i en' g)) as (_ & He & Hs & _).
      unfold living in *. rewrite He, Hs.
      cbn [enemies scoreRef setEnemy set_enemies] in *. lia.
  - unfold living in *. cbn [enemies scoreRef setEnemy set_enemies] in *. lia.
Qed.

Lemma fold_enemyStep_potential (level : list string) (dt : Q) (l : list nat)
  (g : Game) :
  (scoreRef (fold_left (enemyStep level dt) l g)
   + 2 * Z.of_nat (living (fold_left (enemyStep level dt) l g))
   = scoreRef g + 2 * Z.of_nat (living g))%Z.
Proof.
  revert g. induction l as [|i l IH]; intros g; cbn [fold_left]; [reflexivity |].
  rewrite IH. apply enemyStep_potential.
Qed.

Lemma voidFall_potential (level : list string) (g : Game) :
  scoreRef (voidFall level g) = scoreRef g
  /\ living (voidFall level g) = living g.
Proof.
  unfold voidFall, living. destruct (Qltb _ _); [| split; reflexivity].
  destruct (hurt_frame g) as (_ & -> & -> & _). split; reflexivity.
Qed.

(** C7.  In a step with a living player, the coins that are picked are
    exactly those that were not picked before and whose 20x20 box, centred on
    the coin, meets the box of the player as the step has moved it: each of
    them gets [picked = true], every other coin is left as it was, and the
    score grows by exactly 1 for each of them (beside the 2 of every enemy
    stomped in the step).  So a coin that is already picked adds nothing in
    any later step, whether it still meets the player or not, and comes out
    of the step unchanged; with a dead player the step changes nothing.  A
    second pass of the coin loop at the same place changes neither a coin nor
    the score. *)
Theorem coin_pickup_once (level : list string) (keys : Keys) (dt : Q)
  (g : Game) :
  let moved := movePlayer level keys dt (player g) in
  let g' := update level keys dt g in
  (Ent.alive (player g) = true ->
     (forall i coin, nth_error (coins g) i = Some coin ->
        (Coin.picked coin = false ->
         rectsIntersect (coinBox coin) (entBox moved) = true ->
         nth_error (coins g') i = Some (Coin.set_picked true coin))
        /\ (Coin.picked coin = true
            \/ rectsIntersect (coinBox coin) (entBox moved) = false ->
            nth_error (coins g') i = Some coin))
     /\ scoreRef g'
        = (scoreRef g
           + Z.of_nat (List.length
               (filter (fun coin =>
                          negb (Coin.picked coin)
                          && rectsIntersect (coinBox coin) (entBox moved))
                       (coins g)))
           + 2 * (Z.of_nat (living g) - Z.of_nat (living g')))%Z)
  /\ (Ent.alive (player g) = false -> g' = g)
  /\ (forall i coin, nth_error (coins g) i = Some coin ->
        Coin.picked coin = true -> nth_error (coins g') i = Some coin)
  /\ coinPhase (coinPhase g) = coinPhase g.
Proof.
  cbv zeta. split; [| split; [| split]].
  - intros Ea. split.
    + intros i coin Hi. rewrite update_coins, Ea.
      rewrite (collectCoins_nth _ _ _ _ _ Hi). unfold fresh. split.
      * intros Hp Hr. rewrite Hp, Hr. reflexivity.
      * intros [Hp | Hr]; [rewrite Hp | rewrite Hr, andb_false_r]; reflexivity.
    + rewrite (update_alive level keys dt g Ea).
      set (g0 := set_player (movePlayer level keys dt (player g)) g).
      assert (Hc : scoreRef (coinPhase g0)
                   = (scoreRef g
                      + Z.of_nat (List.length
                          (filter (fresh (movePlayer level keys dt (player g)))
                                  (coins g))))%Z
                   /\ living (coinPhase g0) = living g).
      { unfold coinPhase, living.
        change (player g0) with (movePlayer level keys dt (player g)).
        change (coins g0) with (coins g).
        change (scoreRef g0) with (scoreRef g).
        pose proof (collectCoins_score (movePlayer level keys dt (player g))
                      (coins g) (scoreRef g)) as Hs.
        destruct (collectCoins (movePlayer level keys dt (player g))
                    (coins g) (scoreRef g)) as [cs s].
        cbn [snd] in Hs. unfold g0.
        cbn [scoreRef enemies set_scoreRef set_coins set_player].
        split; [exact Hs | reflexivity]. }
      destruct Hc as [Hc1 Hc2]. unfold fresh in Hc1.
      pose proof (fold_enemyStep_potential level dt
                    (seq 0 (List.length (enemies (coinPhase g0)))) (coinPhase g0))
        as Hloop.
      fold (enemiesLoop level dt (coinPhase g0)) in Hloop.
      destruct (voidFall_potential level (enemiesLoop level dt (coinPhase g0)))
        as [Hv1 Hv2].
      rewrite Hv1, Hv2. rewrite Hc2 in Hloop. lia.
  - apply update_dead.
  - intros i coin Hi Hp. rewrite update_coins.
    destruct (Ent.alive (player g)); [| exact Hi].
    rewrite (collectCoins_nth _ _ _ _ _ Hi). unfold fresh. rewrite Hp. reflexivity.
  - unfold coinPhase at 2 3.
    pose proof (collectCoins_again (player g) (coins g) (scoreRef g)) as Hagain.
    destruct (collectCoins (player g) (coins g) (scoreRef g)) as [cs' s'].
    unfold coinPhase. cbn [player coins scoreRef set_scoreRef set_coins fst] in *.
    rewrite Hagain. reflexivity.
Qed.

(** A player dropped next to a coin: the step moves it down onto the coin. *)
Lemma coin_pickup_once_witness :
  let g := mkGame [] [Coin.mk 24 64 1 0 false] []
                  (Ent.mk 0 10 36 42 0 0 false 1 true) 0%Z 3%Z in
  rectsIntersect (coinBox (Coin.mk 24 64 1 0 false)) (entBox (player g)) = false
  /\ nth_error (coins (update [] idle (1 # 25) g)) 0
     = Some (Coin.mk 24 64 1 0 true)
  /\ nth_error (coins (update [] idle (1 # 25) (update [] idle (1 # 25) g))) 0
     = Some (Coin.mk 24 64 1 0 true).
Proof.
  intros g.
  pose proof (proj1 (coin_pickup_once [] idle (1 # 25) g) eq_refl) as [Hcoins _].
  pose proof (proj1 (Hcoins 0%nat (Coin.mk 24 64 1 0 false) eq_refl)
                eq_refl ltac:(vm_compute; reflexivity)) as Hpick.
  split; [reflexivity |]. split; [exact Hpick |].
  exact (proj1 (proj2 (proj2 (coin_pickup_once [] idle (1 # 25)
                                (update [] idle (1 # 25) g))))
           0%nat (Coin.mk 24 64 1 0 true) Hpick eq_refl).
Defined.
